(** * SolarScan bridge (server.js): normalizer, extractor, worker invoker, /scan

    A shallow embedding of [server.js] and of the parts of the JavaScript
    platform it calls ([parseFloat], [isNaN], [String.prototype.trim],
    [JSON.parse], object spread, [Promise], [setTimeout]).

    Conventions of the model.
    - A JavaScript string is carried as the [string] of its UTF-8 bytes.  The
      characters [server.js] searches for (braces, digits, signs) are ASCII, so
      byte positions and code-unit positions delimit the same substrings.
    - A finite number is carried as the exact decimal [m * 10^e] it was written
      as, with its sign ([3e2] and [300] are equal for [===] and print alike,
      without being the same term); the rounding of the significand to
      binary64 is not modelled, whereas overflow to Infinity and underflow to
      zero are.
    - An object is the list of its own enumerable properties; assigning an
      existing key keeps its position.  The engine's reordering of
      integer-like keys and inherited properties are not modelled: [server.js]
      looks up no name that a prototype defines.
    - Converting an object to a string or a number gives what
      [Object.prototype.toString] gives.  The TypeError that the engine raises
      instead for an object with a property [toString] of its own is not
      modelled; [converts] tells the values for which there is none, and the
      statements that depend on a conversion of an arbitrary value assume it.
    - What the program reads from its environment is an argument: the clock
      behind [Date.now()], and the events of the child process, each with the
      time in milliseconds since the spawn at which it is handled.  What it
      prints on the console is left out.
    - The bridge is taken to stay alive.  Of the write of the payload to the
      child's stdin only the payload is recorded: an error of that write,
      which nothing in [server.js] handles and which ends the process, is
      not modelled.
    - [scan] is the handler of the route, for any body it may be handed.
      What [express.json] answers by itself before the handler runs, as for
      a body that is neither an object nor an array, is outside the model. *)

From Stdlib Require Import Bool List String Ascii ZArith NArith Lia DecimalString.
Import ListNotations.

Set Warnings "-register-all".

Open Scope string_scope.
Open Scope list_scope.
Open Scope Z_scope.

(* ================================================================== *)
(** ** The platform: values and built-ins *)
(* ================================================================== *)

Module JS.

(** *** Numbers *)

Inductive number : Type :=
| NaN
| Infinity (neg : bool)
| Finite (neg : bool) (m : N) (e : Z).

Definition code (c : ascii) : N := N_of_ascii c.

Definition is_digit (c : ascii) : bool :=
  ((48 <=? code c) && (code c <=? 57))%N.

Definition digit_val (c : ascii) : N := (code c - 48)%N.

Fixpoint take_digits (l : list ascii) : list ascii * list ascii :=
  match l with
  | c :: r =>
      if is_digit c
      then let (ds, r') := take_digits r in (c :: ds, r')
      else ([], l)
  | [] => ([], [])
  end.

Definition N_of_digits (ds : list ascii) : N :=
  fold_left (fun acc c => (acc * 10 + digit_val c)%N) ds 0%N.

Definition digits_of_N (m : N) : list ascii :=
  list_ascii_of_string (NilZero.string_of_uint (N.to_uint m)).

Fixpoint strip_zeros (ds : list ascii) : list ascii :=
  match ds with
  | c :: r => if (code c =? 48)%N then strip_zeros r else ds
  | [] => []
  end.

(** Values at or above [OVERFLOW_BOUND] round to Infinity, values at or below
    [2^-1075] round to zero (round-to-nearest, ties to even). *)
Definition OVERFLOW_BOUND : Z := 2 ^ 1024 - 2 ^ 970.
Definition UNDERFLOW_SHIFT : Z := 2 ^ 1075.

(** The number denoted by the decimal digits [ds] scaled by [10^e]. *)
Definition decimal (neg : bool) (ds : list ascii) (e : Z) : number :=
  let m := N_of_digits ds in
  if (m =? 0)%N then Finite neg 0 0
  else
    let n := e + Z.of_nat (List.length (strip_zeros ds)) in
    if 400 <? n then Infinity neg
    else if n <? -400 then Finite neg 0 0
    else
      let num := Z.of_N m * 10 ^ Z.max 0 e in
      let den := 10 ^ Z.max 0 (- e) in
      if OVERFLOW_BOUND * den <=? num then Infinity neg
      else if num * UNDERFLOW_SHIFT <=? den then Finite neg 0 0
      else Finite neg m e.

(** An integer of the host: exit codes and clock readings. *)
Definition num_of_N (n : N) : number := Finite false n 0.

Definition num_of_Z (z : Z) : number := Finite (z <? 0) (Z.abs_N z) 0.

Definition is_nan (x : number) : bool :=
  match x with NaN => true | _ => false end.

Definition is_finite (x : number) : bool :=
  match x with Finite _ _ _ => true | _ => false end.

Definition is_zero (x : number) : bool :=
  match x with Finite _ m _ => (m =? 0)%N | _ => false end.

(** Number::toString, radix 10: the digits are those of [m] without its
    trailing zeros. *)
Definition Number_toString (x : number) : string :=
  match x with
  | NaN => "NaN"
  | Infinity false => "Infinity"
  | Infinity true => "-Infinity"
  | Finite neg m e =>
      if (m =? 0)%N then "0"
      else
        let all := digits_of_N m in
        let ds := rev (strip_zeros (rev all)) in
        let k := Z.of_nat (List.length ds) in
        let n := e + Z.of_nat (List.length all) in
        let body :=
          if (k <=? n) && (n <=? 21)
          then ds ++ repeat "0"%char (Z.to_nat (n - k))
          else if (0 <? n) && (n <=? 21)
          then firstn (Z.to_nat n) ds ++ "."%char :: skipn (Z.to_nat n) ds
          else if (-6 <? n) && (n <=? 0)
          then "0"%char :: "."%char :: repeat "0"%char (Z.to_nat (- n)) ++ ds
          else
            let ex := n - 1 in
            let exs := (if ex <? 0 then "-"%char else "+"%char)
                         :: digits_of_N (Z.abs_N ex) in
            match ds with
            | [] => []
            | [d] => d :: "e"%char :: exs
            | d :: r => d :: "."%char :: r ++ "e"%char :: exs
            end in
        string_of_list_ascii ((if neg then ["-"%char] else []) ++ body)
  end.

(** *** Values *)

Inductive value : Type :=
| VUndef
| VNull
| VBool (b : bool)
| VNum (n : number)
| VStr (s : string)
| VArr (items : list value)
| VObj (props : list (string * value)).

Definition props := list (string * value).

(** [[[Get]]] of an own property. *)
Fixpoint lookup (k : string) (ps : props) : option value :=
  match ps with
  | [] => None
  | (k', v) :: r => if String.eqb k k' then Some v else lookup k r
  end.

(** CreateDataProperty: an existing key keeps its place and takes the new
    value, a new key goes last. *)
Fixpoint assign (k : string) (v : value) (ps : props) : props :=
  match ps with
  | [] => [(k, v)]
  | (k', v') :: r =>
      if String.eqb k k' then (k, v) :: r else (k', v') :: assign k v r
  end.

Definition assign_all (src dst : props) : props :=
  fold_left (fun acc kv => assign (fst kv) (snd kv) acc) src dst.

Fixpoint join (sep : string) (l : list string) : string :=
  match l with
  | [] => ""
  | [s] => s
  | s :: r => (s ++ sep ++ join sep r)%string
  end.

(** ToString; an array prints as [Array.prototype.join] does, an object
    as [Object.prototype.toString] does.  An object with a property
    [toString] of its own makes the engine raise a TypeError, which this
    function does not. *)
Fixpoint ToString (v : value) : string :=
  match v with
  | VUndef => "undefined"
  | VNull => "null"
  | VBool true => "true"
  | VBool false => "false"
  | VNum n => Number_toString n
  | VStr s => s
  | VArr l =>
      join "," (map (fun x => match x with
                              | VUndef | VNull => ""
                              | _ => ToString x
                              end) l)
  | VObj _ => "[object Object]"
  end.

(** ToBoolean. *)
Definition truthy (v : value) : bool :=
  match v with
  | VUndef | VNull => false
  | VBool b => b
  | VNum n => negb (is_nan n || is_zero n)
  | VStr s => negb (String.eqb s "")
  | VArr _ | VObj _ => true
  end.

Definition nullish (v : value) : bool :=
  match v with VUndef | VNull => true | _ => false end.

(** [a ?? b] and [a || b]. *)
Definition coalesce (a b : value) : value := if nullish a then b else a.
Definition or_else (a b : value) : value := if truthy a then a else b.

(** *** Strings: white space and numeric literals *)

Definition chars (s : string) : list ascii := list_ascii_of_string s.
Definition str (l : list ascii) : string := string_of_list_ascii l.

(** WhiteSpace and LineTerminator, by the length of their UTF-8 encoding:
    TAB, LF, VT, FF, CR, SP; U+00A0; U+1680, U+2000..U+200A, U+2028, U+2029,
    U+202F, U+205F, U+3000, U+FEFF. *)
Definition ws1 (a : ascii) : bool :=
  let c := code a in (((9 <=? c) && (c <=? 13)) || (c =? 32))%N.

Definition ws2 (a b : ascii) : bool :=
  ((code a =? 194) && (code b =? 160))%N.

Definition ws3 (a b c : ascii) : bool :=
  let x := code a in
  let y := code b in
  let z := code c in
  (((x =? 225) && (y =? 154) && (z =? 128))
   || ((x =? 226) && (y =? 128)
       && (((128 <=? z) && (z <=? 138)) || (z =? 168) || (z =? 169) || (z =? 175)))
   || ((x =? 226) && (y =? 129) && (z =? 159))
   || ((x =? 227) && (y =? 128) && (z =? 128))
   || ((x =? 239) && (y =? 187) && (z =? 191)))%N.

(** Drops leading white space; with [back] the list is read from its end, so
    the bytes of one character come in reverse. *)
Fixpoint skip_ws (back : bool) (l : list ascii) : list ascii :=
  match l with
  | [] => []
  | a :: r1 =>
      if ws1 a then skip_ws back r1
      else
        match r1 with
        | [] => l
        | b :: r2 =>
            if (if back then ws2 b a else ws2 a b) then skip_ws back r2
            else
              match r2 with
              | [] => l
              | c :: r3 =>
                  if (if back then ws3 c b a else ws3 a b c)
                  then skip_ws back r3
                  else l
              end
        end
  end.

Definition trim_chars (l : list ascii) : list ascii :=
  rev (skip_ws true (rev (skip_ws false l))).

(** String.prototype.trim *)
Definition trim (s : string) : string := str (trim_chars (chars s)).

Fixpoint strip_prefix (p l : list ascii) : option (list ascii) :=
  match p, l with
  | [], _ => Some l
  | _ :: _, [] => None
  | a :: p', b :: l' => if Ascii.eqb a b then strip_prefix p' l' else None
  end.

(** An optional sign. *)
Definition scan_sign (l : list ascii) : bool * list ascii :=
  match l with
  | c :: r =>
      if (code c =? 43)%N then (false, r)
      else if (code c =? 45)%N then (true, r)
      else (false, l)
  | [] => (false, [])
  end.

(** ExponentPart, when one is there in full; otherwise nothing is consumed. *)
Definition scan_exponent (l : list ascii) : Z * list ascii :=
  match l with
  | c :: r =>
      if ((code c =? 101) || (code c =? 69))%N then
        let (sgn, r') := scan_sign r in
        let (ds, r'') := take_digits r' in
        match ds with
        | [] => (0, l)
        | _ :: _ =>
            let x := Z.of_N (N_of_digits ds) in
            ((if sgn then - x else x), r'')
        end
      else (0, l)
  | [] => (0, [])
  end.

(** The longest prefix that is a StrUnsignedDecimalLiteral other than
    Infinity: digits, [digits.digits], [digits.], [.digits], each with an
    optional exponent. *)
Definition scan_unsigned (neg : bool) (l : list ascii)
  : option (number * list ascii) :=
  let (ip, r1) := take_digits l in
  let plain :=
    match ip with
    | [] => None
    | _ :: _ => let (ex, r4) := scan_exponent r1 in Some (decimal neg ip ex, r4)
    end in
  match r1 with
  | dot :: r2 =>
      if (code dot =? 46)%N then
        let (fp, r3) := take_digits r2 in
        match ip, fp with
        | [], [] => None
        | _, _ =>
            let (ex, r4) := scan_exponent r3 in
            Some (decimal neg (ip ++ fp) (ex - Z.of_nat (List.length fp)), r4)
        end
      else plain
  | [] => plain
  end.

(** The longest prefix that is a StrDecimalLiteral. *)
Definition scan_decimal (l : list ascii) : option (number * list ascii) :=
  let (neg, r) := scan_sign l in
  match strip_prefix (chars "Infinity") r with
  | Some r' => Some (Infinity neg, r')
  | None => scan_unsigned neg r
  end.

(** parseFloat: the argument is converted to a string first. *)
Definition parseFloat_string (s : string) : number :=
  match scan_decimal (skip_ws false (chars s)) with
  | Some (n, _) => n
  | None => NaN
  end.

Definition parseFloat (v : value) : value := VNum (parseFloat_string (ToString v)).

(** Digits of a NonDecimalIntegerLiteral. *)
Definition radix_digit (radix : N) (c : ascii) : option N :=
  let x := code c in
  let d := (if (48 <=? x) && (x <=? 57) then x - 48
            else if (97 <=? x) && (x <=? 102) then x - 87
            else if (65 <=? x) && (x <=? 70) then x - 55
            else 99)%N in
  if (d <? radix)%N then Some d else None.

Fixpoint radix_value (radix : N) (acc : N) (l : list ascii) : option N :=
  match l with
  | [] => Some acc
  | c :: r =>
      match radix_digit radix c with
      | Some d => radix_value radix (acc * radix + d)%N r
      | None => None
      end
  end.

Definition non_decimal (l : list ascii) : option (N * list ascii) :=
  match l with
  | z :: x :: r =>
      if (code z =? 48)%N then
        if ((code x =? 120) || (code x =? 88))%N then Some (16%N, r)
        else if ((code x =? 111) || (code x =? 79))%N then Some (8%N, r)
        else if ((code x =? 98) || (code x =? 66))%N then Some (2%N, r)
        else None
      else None
  | _ => None
  end.

(** StringToNumber *)
Definition StringToNumber (s : string) : number :=
  let t := trim_chars (chars s) in
  match t with
  | [] => Finite false 0 0
  | _ :: _ =>
      match non_decimal t with
      | Some (radix, ds) =>
          match ds with
          | [] => NaN
          | _ :: _ =>
              match radix_value radix 0 ds with
              | Some n => num_of_N n
              | None => NaN
              end
          end
      | None =>
          match scan_decimal t with
          | Some (n, []) => n
          | _ => NaN
          end
      end
  end.

(** ToNumber; an array or object goes through its string form. *)
Definition ToNumber (v : value) : number :=
  match v with
  | VUndef => NaN
  | VNull => Finite false 0 0
  | VBool true => Finite false 1 0
  | VBool false => Finite false 0 0
  | VNum n => n
  | VStr s => StringToNumber s
  | VArr _ | VObj _ => StringToNumber (ToString v)
  end.

(** The global [isNaN]. *)
Definition isNaN (v : value) : bool := is_nan (ToNumber v).

End JS.

(* ================================================================== *)
(** ** JSON.parse *)
(* ================================================================== *)

Module JSON.
Import JS.

Inductive token : Type :=
| TLBrace | TRBrace | TLBracket | TRBracket | TColon | TComma
| TString (s : string)
| TValue (v : value).

(** *** Lexical level *)

(** A JSON number: [-]? int frac? exp?, with no leading zero in [int]. *)
Definition json_number (l : list ascii) : option number :=
  let (neg, r0) :=
    match l with
    | c :: r => if (code c =? 45)%N then (true, r) else (false, l)
    | [] => (false, [])
    end in
  let (ip, r1) := take_digits r0 in
  let int_ok :=
    match ip with
    | [] => false
    | [_] => true
    | c :: _ :: _ => negb (code c =? 48)%N
    end in
  let frac :=
    match r1 with
    | dot :: r2 =>
        if (code dot =? 46)%N then
          let (fp, r3) := take_digits r2 in
          match fp with
          | [] => None
          | _ :: _ => Some (fp, r3)
          end
        else Some ([], r1)
    | [] => Some ([], [])
    end in
  match frac with
  | Some (fp, r3) =>
      match scan_exponent r3 with
      | (ex, []) =>
          if int_ok
          then Some (decimal neg (ip ++ fp) (ex - Z.of_nat (List.length fp)))
          else None
      | (_, _ :: _) => None
      end
  | None => None
  end.

(** A run of characters outside strings and punctuation: a literal name or a
    number. *)
Definition bare_token (l : list ascii) : option token :=
  let s := str l in
  if String.eqb s "true" then Some (TValue (VBool true))
  else if String.eqb s "false" then Some (TValue (VBool false))
  else if String.eqb s "null" then Some (TValue VNull)
  else option_map (fun n => TValue (VNum n)) (json_number l).

(** UTF-8 (generalised to lone surrogates) of a code point. *)
Definition byte (n : N) : ascii := ascii_of_N n.

Definition utf8 (cp : N) : list ascii :=
  (if cp <? 128 then [byte cp]
   else if cp <? 2048 then [byte (192 + cp / 64); byte (128 + cp mod 64)]
   else if cp <? 65536 then
     [byte (224 + cp / 4096); byte (128 + (cp / 64) mod 64); byte (128 + cp mod 64)]
   else
     [byte (240 + cp / 262144); byte (128 + (cp / 4096) mod 64);
      byte (128 + (cp / 64) mod 64); byte (128 + cp mod 64)])%N.

Definition is_high (u : N) : bool := ((55296 <=? u) && (u <=? 56319))%N.
Definition is_low (u : N) : bool := ((56320 <=? u) && (u <=? 57343))%N.

(** The text of a string literal under construction: its bytes so far, in
    reverse, and a high surrogate that still waits for its partner. *)
Record text := { bytes_rev : list ascii; pending : option N }.

Definition flush (t : text) : list ascii :=
  match pending t with
  | Some hi => rev (utf8 hi) ++ bytes_rev t
  | None => bytes_rev t
  end.

Definition push_byte (c : ascii) (t : text) : text :=
  {| bytes_rev := c :: flush t; pending := None |}.

Definition push_unit (u : N) (t : text) : text :=
  match pending t with
  | Some hi =>
      if is_low u
      then {| bytes_rev :=
                rev (utf8 (65536 + (hi - 55296) * 1024 + (u - 56320))%N)
                  ++ bytes_rev t;
              pending := None |}
      else if is_high u
      then {| bytes_rev := flush t; pending := Some u |}
      else {| bytes_rev := rev (utf8 u) ++ flush t; pending := None |}
  | None =>
      if is_high u
      then {| bytes_rev := bytes_rev t; pending := Some u |}
      else {| bytes_rev := rev (utf8 u) ++ bytes_rev t; pending := None |}
  end.

Inductive mode : Type :=
| Plain
| Escape
| Hex (todo : nat) (acc : N).

Inductive lexer : Type :=
| Idle
| Bare (chars_rev : list ascii)
| InString (t : text) (m : mode).

Definition punctuation (c : ascii) : option token :=
  let x := code c in
  (if x =? 123 then Some TLBrace
   else if x =? 125 then Some TRBrace
   else if x =? 91 then Some TLBracket
   else if x =? 93 then Some TRBracket
   else if x =? 58 then Some TColon
   else if x =? 44 then Some TComma
   else None)%N.

(** JSON white space: TAB, LF, CR, SP. *)
Definition json_ws (c : ascii) : bool :=
  let x := code c in ((x =? 9) || (x =? 10) || (x =? 13) || (x =? 32))%N.

Definition simple_escape (c : ascii) : option ascii :=
  let x := code c in
  (if x =? 34 then Some (byte 34)
   else if x =? 92 then Some (byte 92)
   else if x =? 47 then Some (byte 47)
   else if x =? 98 then Some (byte 8)
   else if x =? 102 then Some (byte 12)
   else if x =? 110 then Some (byte 10)
   else if x =? 114 then Some (byte 13)
   else if x =? 116 then Some (byte 9)
   else None)%N.

(** One character outside a bare run: [None] is a syntax error. *)
Definition lex_idle (c : ascii) (out : list token)
  : option (lexer * list token) :=
  if json_ws c then Some (Idle, out)
  else if (code c =? 34)%N
  then Some (InString {| bytes_rev := []; pending := None |} Plain, out)
  else
    match punctuation c with
    | Some t => Some (Idle, t :: out)
    | None => Some (Bare [c], out)
    end.

Definition is_delimiter (c : ascii) : bool :=
  json_ws c || (code c =? 34)%N
  || match punctuation c with Some _ => true | None => false end.

(** The tokens are collected in reverse. *)
Definition lex_step (st : lexer) (out : list token) (c : ascii)
  : option (lexer * list token) :=
  match st with
  | Idle => lex_idle c out
  | Bare cs =>
      if is_delimiter c then
        match bare_token (rev cs) with
        | Some t => lex_idle c (t :: out)
        | None => None
        end
      else Some (Bare (c :: cs), out)
  | InString t Plain =>
      if (code c =? 34)%N then Some (Idle, TString (str (rev (flush t))) :: out)
      else if (code c =? 92)%N then Some (InString t Escape, out)
      else if (code c <? 32)%N then None
      else Some (InString (push_byte c t) Plain, out)
  | InString t Escape =>
      if (code c =? 117)%N then Some (InString t (Hex 4 0%N), out)
      else
        match simple_escape c with
        | Some b => Some (InString (push_byte b t) Plain, out)
        | None => None
        end
  | InString t (Hex todo acc) =>
      match radix_digit 16 c, todo with
      | Some d, S O => Some (InString (push_unit (acc * 16 + d)%N t) Plain, out)
      | Some d, S todo' => Some (InString t (Hex todo' (acc * 16 + d)%N), out)
      | _, _ => None
      end
  end.

Fixpoint lex (st : lexer) (out : list token) (l : list ascii)
  : option (list token) :=
  match l with
  | c :: r =>
      match lex_step st out c with
      | Some (st', out') => lex st' out' r
      | None => None
      end
  | [] =>
      match st with
      | Idle => Some (rev out)
      | Bare cs => option_map (fun t => rev (t :: out)) (bare_token (rev cs))
      | InString _ _ => None
      end
  end.

(** *** Syntactic level: a pushdown automaton over the tokens *)

Inductive frame : Type :=
| InArray (items_rev : list value)
| InObject (ps : props) (key : string).

Inductive expect : Type :=
| AValue                (* a value *)
| AValueOrClose         (* just after an opening bracket *)
| AKeyOrClose           (* just after an opening brace *)
| AKey (ps : props)     (* after a comma inside an object *)
| AColon (ps : props) (key : string)
| ANext                 (* after a value: a comma or the closing token *)
| AEnd (v : value).     (* the document is complete *)

(** A finished value goes to the innermost open container. *)
Definition deliver (v : value) (stack : list frame) : expect * list frame :=
  match stack with
  | [] => (AEnd v, [])
  | InArray items :: rest => (ANext, InArray (v :: items) :: rest)
  | InObject ps k :: rest => (ANext, InObject (assign k v ps) k :: rest)
  end.

Definition open_value (t : token) (stack : list frame)
  : option (expect * list frame) :=
  match t with
  | TValue v => Some (deliver v stack)
  | TString s => Some (deliver (VStr s) stack)
  | TLBracket => Some (AValueOrClose, stack)
  | TLBrace => Some (AKeyOrClose, stack)
  | _ => None
  end.

Definition parse_step (e : expect) (stack : list frame) (t : token)
  : option (expect * list frame) :=
  match e with
  | AValue => open_value t stack
  | AValueOrClose =>
      match t with
      | TRBracket => Some (deliver (VArr []) stack)
      | _ => open_value t (InArray [] :: stack)
      end
  | AKeyOrClose =>
      match t with
      | TRBrace => Some (deliver (VObj []) stack)
      | TString k => Some (AColon [] k, stack)
      | _ => None
      end
  | AKey ps =>
      match t with
      | TString k => Some (AColon ps k, stack)
      | _ => None
      end
  | AColon ps k =>
      match t with
      | TColon => Some (AValue, InObject ps k :: stack)
      | _ => None
      end
  | ANext =>
      match t, stack with
      | TComma, InArray _ :: _ => Some (AValue, stack)
      | TRBracket, InArray items :: rest => Some (deliver (VArr (rev items)) rest)
      | TComma, InObject ps _ :: rest => Some (AKey ps, rest)
      | TRBrace, InObject ps _ :: rest => Some (deliver (VObj ps) rest)
      | _, _ => None
      end
  | AEnd _ => None
  end.

Fixpoint run (e : expect) (stack : list frame) (ts : list token)
  : option value :=
  match ts with
  | t :: r =>
      match parse_step e stack t with
      | Some (e', stack') => run e' stack' r
      | None => None
      end
  | [] =>
      match e with
      | AEnd v => Some v
      | _ => None
      end
  end.

(** [JSON.parse] of a string: [None] stands for the SyntaxError it throws. *)
Definition parse (s : string) : option value :=
  match lex Idle [] (chars s) with
  | Some ts => run AValue [] ts
  | None => None
  end.

End JSON.

(* ================================================================== *)
(** ** server.js *)
(* ================================================================== *)

Module Server.
Import JS.

(** *** Exceptions, property access, object literals *)

Inductive exc (A : Type) : Type :=
| Ok (a : A)
| Throw (e : value).
Arguments Ok {A} a.
Arguments Throw {A} e.

Definition bind {A B : Type} (m : exc A) (k : A -> exc B) : exc B :=
  match m with
  | Ok a => k a
  | Throw e => Throw e
  end.

Notation "x <- m ;; k" := (bind m (fun x => k))
  (at level 61, m at next level, right associativity).

(** try { body } catch (e) { handler e } *)
Definition try_catch {A : Type} (body : exc A) (handler : value -> exc A)
  : exc A :=
  match body with
  | Ok a => Ok a
  | Throw e => handler e
  end.

(** [new Error(message)]; the stack and the prototype are left out. *)
Definition new_Error (message : string) : value :=
  VObj [("message", VStr message)].

Definition TypeError (message : string) : value :=
  VObj [("message", VStr message); ("name", VStr "TypeError")].

Definition SyntaxError : value :=
  VObj [("message", VStr "Unexpected token in JSON");
        ("name", VStr "SyntaxError")].

Fixpoint index_props (i : N) (l : list value) : props :=
  match l with
  | [] => []
  | v :: r => (Number_toString (num_of_N i), v) :: index_props (N.succ i) r
  end.

(** The own enumerable properties that a spread copies.  Only arrays and
    plain objects are ever spread by [normalizeOne]. *)
Definition own_props (v : value) : props :=
  match v with
  | VObj ps => ps
  | VArr l => index_props 0 l
  | _ => []
  end.

(** [v.k] on a value that is neither null nor undefined, for the names
    [server.js] reads: none of them is defined on a primitive. *)
Definition get (v : value) (k : string) : value :=
  match lookup k (own_props v) with
  | Some x => x
  | None => VUndef
  end.

(** [v.k]: reading a property of null or undefined throws. *)
Definition member (v : value) (k : string) : exc value :=
  match v with
  | VUndef =>
      Throw (TypeError ("Cannot read properties of undefined (reading '"
                          ++ k ++ "')")%string)
  | VNull =>
      Throw (TypeError ("Cannot read properties of null (reading '"
                          ++ k ++ "')")%string)
  | _ => Ok (get v k)
  end.

(** [e?.k] *)
Definition optional_get (v : value) (k : string) : value :=
  if nullish v then VUndef else get v k.

Definition typeof (v : value) : string :=
  match v with
  | VUndef => "undefined"
  | VBool _ => "boolean"
  | VNum _ => "number"
  | VStr _ => "string"
  | VNull | VArr _ | VObj _ => "object"
  end.

(** [a === b] where one side is a primitive, as everywhere in [server.js]. *)
Definition strict_eq (a b : value) : bool :=
  match a, b with
  | VUndef, VUndef => true
  | VNull, VNull => true
  | VBool x, VBool y => Bool.eqb x y
  | VStr x, VStr y => String.eqb x y
  | VNum (Finite s m e), VNum (Finite s' m' e') =>
      ((m =? 0)%N && (m' =? 0)%N)
      || (Bool.eqb s s'
          && (Z.of_N m * 10 ^ (e - Z.min e e')
              =? Z.of_N m' * 10 ^ (e' - Z.min e e')))
  | VNum (Infinity s), VNum (Infinity s') => Bool.eqb s s'
  | _, _ => false
  end.

(** An object literal: the listed properties are created in order and each
    spread copies the own properties of its operand. *)
Inductive entry : Type :=
| Field (k : string) (v : value)
| Spread (v : value).

Definition add_entry (acc : props) (e : entry) : props :=
  match e with
  | Field k v => assign k v acc
  | Spread x => assign_all (own_props x) acc
  end.

Definition object (es : list entry) : value := VObj (fold_left add_entry es []).

(** *** Normalization helpers *)

(** [Date.now()] is an input: [now] is the clock reading at the call. *)
Definition normalizeOne (now : N) (x : value) : value :=
  if negb (truthy x) || negb (String.eqb (typeof x) "object") then x
  else
    object
      [ Field "id"
          (coalesce
             (coalesce (coalesce (get x "id") (get x "sub_id")) (get x "subId"))
             (VStr ("temp_" ++ ToString (VNum (num_of_N now)))%string));
        Field "lat" (parseFloat (coalesce (get x "lat") (get x "latitude")));
        Field "lon"
          (parseFloat
             (coalesce (coalesce (get x "lon") (get x "lng"))
                (get x "longitude")));
        Field "raio_m"
          (parseFloat
             (coalesce
                (coalesce (coalesce (get x "raio_m") (get x "raio"))
                   (get x "radius_m"))
                (VNum (num_of_N 300))));
        Spread x ].

(** [payload.map(normalizeOne)]: the [i]-th call reads the clock at
    [clock i]. *)
Fixpoint map_normalizeOne (clock : nat -> N) (i : nat) (l : list value)
  : list value :=
  match l with
  | [] => []
  | x :: r => normalizeOne (clock i) x :: map_normalizeOne clock (S i) r
  end.

(** The match on [VArr] is [Array.isArray]. *)
Definition normalizePayload (clock : nat -> N) (payload : value) : value :=
  match payload with
  | VArr l => VArr (map_normalizeOne clock 0 l)
  | _ => normalizeOne (clock O) payload
  end.

(** *** extractJSON *)

Definition JSON_parse (s : string) : exc value :=
  match JSON.parse s with
  | Some v => Ok v
  | None => Throw SyntaxError
  end.

(** [s.indexOf(c)] and [s.lastIndexOf(c)] for a one-character [c]. *)
Fixpoint index_from (c : ascii) (i : Z) (l : list ascii) : Z :=
  match l with
  | [] => -1
  | a :: r => if Ascii.eqb a c then i else index_from c (i + 1) r
  end.

Fixpoint last_index_from (c : ascii) (i : Z) (found : Z) (l : list ascii) : Z :=
  match l with
  | [] => found
  | a :: r => last_index_from c (i + 1) (if Ascii.eqb a c then i else found) r
  end.

Definition indexOf (s : string) (c : ascii) : Z := index_from c 0 (chars s).
Definition lastIndexOf (s : string) (c : ascii) : Z :=
  last_index_from c 0 (-1) (chars s).

(** [s.substring(a, b)]: both bounds are clamped to the string and swapped
    when out of order. *)
Definition substring (s : string) (a b : Z) : string :=
  let len := Z.of_nat (String.length s) in
  let a' := Z.min (Z.max a 0) len in
  let b' := Z.min (Z.max b 0) len in
  let lo := Z.min a' b' in
  let hi := Z.max a' b' in
  String.substring (Z.to_nat lo) (Z.to_nat (hi - lo)) s.

Definition extractJSON (raw : string) : exc value :=
  try_catch (JSON_parse raw) (fun e =>
    let firstBrace := indexOf raw "{"%char in
    let lastBrace := lastIndexOf raw "}"%char in
    if negb (firstBrace =? -1) && negb (lastBrace =? -1)
       && (firstBrace <? lastBrace)
    then
      try_catch
        (let jsonStr := substring raw firstBrace (lastBrace + 1) in
         JSON_parse jsonStr)
        (fun innerE => Ok VNull)
    else Ok VNull).

(** *** runPython

    The promise and the child process are one record: what the two streams
    have delivered, the state of the timer, whether [kill] was sent, and the
    settlement of the promise.  A promise settles once: later calls of
    [resolve] and [reject] change nothing. *)

Inductive outcome : Type :=
| Resolved (v : value)
| Rejected (e : value).

Inductive timer : Type := Armed | Cleared | Fired.

Record invocation : Type := {
  written : value;          (* the payload put on the child's stdin *)
  stdout : string;
  stderr : string;
  timeout : timer;
  killed : bool;
  settled : option outcome
}.

Definition settle (o : outcome) (p : invocation) : invocation :=
  match settled p with
  | Some _ => p
  | None =>
      {| written := written p; stdout := stdout p; stderr := stderr p;
         timeout := timeout p; killed := killed p; settled := Some o |}
  end.

Definition resolve (v : value) : invocation -> invocation := settle (Resolved v).
Definition reject (e : value) : invocation -> invocation := settle (Rejected e).

Definition clearTimeout (p : invocation) : invocation :=
  {| written := written p; stdout := stdout p; stderr := stderr p;
     timeout := match timeout p with Armed => Cleared | t => t end;
     killed := killed p; settled := settled p |}.

Definition kill (p : invocation) : invocation :=
  {| written := written p; stdout := stdout p; stderr := stderr p;
     timeout := timeout p; killed := true; settled := settled p |}.

(** What the child and the system do to the invocation. *)
Inductive event : Type :=
| StdoutData (d : string)
| StderrData (d : string)
| ErrorEvent (err : props)          (* 'error', with the system's error object *)
| Close (code : option Z).          (* 'close'; no code when signalled *)

Definition TIMEOUT_MS : Z := 120000.

Definition TIMEOUT_error : value :=
  object [ Field "code" (VStr "TIMEOUT");
           Field "error" (VStr "Python script timed out after 120s") ].

(** The callback given to [setTimeout]. *)
Definition on_timeout (p : invocation) : invocation :=
  let p := {| written := written p; stdout := stdout p; stderr := stderr p;
              timeout := Fired; killed := killed p; settled := settled p |} in
  reject TIMEOUT_error (kill p).

Definition on_stdout (d : string) (p : invocation) : invocation :=
  {| written := written p; stdout := (stdout p ++ d)%string; stderr := stderr p;
     timeout := timeout p; killed := killed p; settled := settled p |}.

Definition on_stderr (d : string) (p : invocation) : invocation :=
  {| written := written p; stdout := stdout p; stderr := (stderr p ++ d)%string;
     timeout := timeout p; killed := killed p; settled := settled p |}.

Definition on_error (err : value) (p : invocation) : invocation :=
  reject err (clearTimeout p).

Definition code_value (code : option Z) : value :=
  match code with
  | Some z => VNum (num_of_Z z)
  | None => VNull
  end.

Definition invalid_output (code : value) (p : invocation) : value :=
  object [ Field "code" code;
           Field "error" (VStr "Invalid JSON output from Python");
           Field "raw" (VStr (stdout p));
           Field "stderr" (VStr (stderr p)) ].

Definition logical_error (code parsed error : value) (p : invocation) : value :=
  object [ Field "code" code;
           Field "error" (or_else error (VStr "Python logical error"));
           Field "parsed" parsed;
           Field "stderr" (VStr (stderr p)) ].

Definition success (parsed : value) (p : invocation) : value :=
  object [ Field "parsed" parsed; Field "stderr" (VStr (stderr p)) ].

Definition correlation_error (code e : value) (p : invocation) : value :=
  object [ Field "code" code;
           Field "stderr" (VStr (stderr p));
           Field "raw" (VStr (stdout p));
           Field "parseError" (optional_get e "message") ].

(** The body of the [try] in the 'close' handler: which settlement it
    asks for, or what it throws. *)
Definition correlate (code : value) (p : invocation) : exc outcome :=
  let cleanOutput := trim (stdout p) in
  parsed <- extractJSON cleanOutput ;;
  if negb (truthy parsed) then Ok (Rejected (invalid_output code p))
  else
    ok <- member parsed "ok" ;;
    if strict_eq code (VNum (num_of_N 0)) && strict_eq ok (VBool true)
    then Ok (Resolved (success parsed p))
    else
      error <- member parsed "error" ;;
      Ok (Rejected (logical_error code parsed error p)).

Definition on_close (code : option Z) (p : invocation) : invocation :=
  let p := clearTimeout p in
  match correlate (code_value code) p with
  | Ok (Resolved v) => resolve v p
  | Ok (Rejected e) => reject e p
  | Throw e => reject (correlation_error (code_value code) e p) p
  end.

Definition handle (e : event) (p : invocation) : invocation :=
  match e with
  | StdoutData d => on_stdout d p
  | StderrData d => on_stderr d p
  | ErrorEvent err => on_error (VObj err) p
  | Close code => on_close code p
  end.

(** Time is counted in milliseconds from the spawn.  The timer callback runs
    when the clock reaches [TIMEOUT_MS] with the timer still armed; an event
    stamped at that very instant is taken to come after it. *)
Definition tick (t : Z) (p : invocation) : invocation :=
  match timeout p with
  | Armed => if TIMEOUT_MS <=? t then on_timeout p else p
  | _ => p
  end.

Fixpoint deliver (evs : list (Z * event)) (p : invocation) : invocation :=
  match evs with
  | [] => p
  | (t, e) :: r => deliver r (handle e (tick t p))
  end.

(** The invocation when [runPython] returns: the handlers are installed,
    the timer is armed, and the payload has been written to the child's
    stdin, which is assumed to raise no error. *)
Definition spawn (payload : value) : invocation :=
  {| written := payload; stdout := ""; stderr := ""; timeout := Armed;
     killed := false; settled := None |}.

(** The invocation once the child has produced all of [evs] and the clock
    has passed the deadline. *)
Definition finish (payload : value) (evs : list (Z * event)) : invocation :=
  tick TIMEOUT_MS (deliver evs (spawn payload)).

(** The settlement of the promise [runPython payload] returns, for a child
    that behaves as [evs]; [None] would be a promise left pending. *)
Definition runPython (payload : value) (evs : list (Z * event))
  : option outcome :=
  settled (finish payload evs).

(** *** POST /scan *)

Record response : Type := { status : Z; body : value }.

(** The [for] loop of the validation. *)
Fixpoint check_items (arr : list value) : exc unit :=
  match arr with
  | [] => Ok tt
  | item :: rest =>
      lat <- member item "lat" ;;
      bad <- (if isNaN lat then Ok true
              else lon <- member item "lon" ;; Ok (isNaN lon)) ;;
      if (bad : bool) then
        id <- member item "id" ;;
        Throw (new_Error ("Coordenadas inválidas para ID: " ++ ToString id)%string)
      else check_items rest
  end.

(** [Array.isArray(payload) ? payload : [payload]] *)
Definition as_array (payload : value) : list value :=
  match payload with
  | VArr l => l
  | _ => [payload]
  end.

(** The statements of the [try] block up to the call of [runPython]. *)
Definition prepare (clock : nat -> N) (req_body : value) : exc value :=
  let payload := normalizePayload clock req_body in
  let arr := as_array payload in
  if (Z.of_nat (List.length arr) =? 0) then Throw (new_Error "Payload vazio")
  else
    _ <- check_items arr ;;
    Ok payload.

(** The [catch] block.  What reaches it is an object: an error raised by the
    handler or the rejection of [runPython]. *)
Definition failure (err : value) : response :=
  {| status := 500;
     body := object
       [ Field "ok" (VBool false);
         Field "error" (or_else (get err "error") (VStr "Internal Server Error"));
         Field "details"
           (or_else (or_else (get err "stderr") (get err "message")) err) ] |}.

Definition respond_ok (parsed : value) : response :=
  {| status := 200;
     body := object [ Field "ok" (VBool true); Field "data" parsed ] |}.

(** The handler, for a request with body [req_body] whose child, if one is
    spawned, behaves as [child].  It returns the response, if any, and the
    payloads of the children it spawned. *)
Definition scan (clock : nat -> N) (child : list (Z * event)) (req_body : value)
  : option response * list value :=
  match prepare clock req_body with
  | Throw err => (Some (failure err), [])
  | Ok payload =>
      match runPython payload child with
      | None => (None, [payload])
      | Some (Rejected err) => (Some (failure err), [payload])
      | Some (Resolved r) => (Some (respond_ok (get r "parsed")), [payload])
      end
  end.

End Server.

(* ================================================================== *)
(** ** Vocabulary of the statements *)
(* ================================================================== *)

Import JS Server.

(** Texts with double quotes are written with apostrophes in their place:
    [json_text "{'ok':true}"] is the text [{"ok":true}]. *)
Definition json_text (s : string) : string :=
  str (map (fun c => if (code c =? 39)%N then ascii_of_N 34 else c) (chars s)).

Definition LF : string := String (ascii_of_N 10) "".

(** What a run of events leaves in the two buffers. *)
Fixpoint output_of (evs : list (Z * event)) (acc : string) : string :=
  match evs with
  | [] => acc
  | (_, StdoutData d) :: r => output_of r (acc ++ d)%string
  | _ :: r => output_of r acc
  end.

Fixpoint diagnostics_of (evs : list (Z * event)) (acc : string) : string :=
  match evs with
  | [] => acc
  | (_, StderrData d) :: r => diagnostics_of r (acc ++ d)%string
  | _ :: r => diagnostics_of r acc
  end.

Definition is_data (e : event) : bool :=
  match e with
  | StdoutData _ | StderrData _ => true
  | _ => false
  end.

(** The child only writes, and does so before the deadline. *)
Definition streaming (evs : list (Z * event)) : Prop :=
  Forall (fun te => fst te < TIMEOUT_MS /\ is_data (snd te) = true) evs.

(** The invocation as the 'close' handler finds it after the events [pre]. *)
Definition at_close (payload : value) (pre : list (Z * event)) : invocation :=
  {| written := payload;
     stdout := output_of pre "";
     stderr := diagnostics_of pre "";
     timeout := Cleared;
     killed := false;
     settled := None |}.

(** An item of the batch that the validation loop lets through. *)
Definition passes (item : value) : Prop :=
  nullish item = false
  /\ isNaN (get item "lat") = false
  /\ isNaN (get item "lon") = false.

(** What the 'close' handler asks the promise to become. *)
Definition close_outcome (code : option Z) (p : invocation) : outcome :=
  match correlate (code_value code) p with
  | Ok o => o
  | Throw e => Rejected (correlation_error (code_value code) e p)
  end.

(** The states of an invocation: the timer callback has run; nothing has
    settled it yet. *)
Definition timed_out (p : invocation) : Prop :=
  timeout p = Fired
  /\ settled p = Some (Rejected TIMEOUT_error)
  /\ killed p = true.

Definition pending (p : invocation) : Prop :=
  timeout p = Armed /\ settled p = None.

(** The canonical fields as [normalizeOne] computes them, before the spread. *)
Definition canonical (now : N) (x : value) : props :=
  [ ("id",
     coalesce
       (coalesce (coalesce (get x "id") (get x "sub_id")) (get x "subId"))
       (VStr ("temp_" ++ ToString (VNum (num_of_N now)))%string));
    ("lat", parseFloat (coalesce (get x "lat") (get x "latitude")));
    ("lon",
     parseFloat
       (coalesce (coalesce (get x "lon") (get x "lng")) (get x "longitude")));
    ("raio_m",
     parseFloat
       (coalesce
          (coalesce (coalesce (get x "raio_m") (get x "raio")) (get x "radius_m"))
          (VNum (num_of_N 300)))) ].

(** A finite number, as opposed to a string, null, NaN or an infinity. *)
Definition finite_number (v : value) : bool :=
  match v with
  | VNum n => is_finite n
  | _ => false
  end.

(** The names of the properties of an object, in order. *)
Definition keys (ps : props) : list string := map fst ps.

(** The four fields [normalizeOne] writes before the spread. *)
Definition CANONICAL : list string := ["id"; "lat"; "lon"; "raio_m"].

(** What [assign] does to the names: a new one goes last. *)
Definition add_key (acc : list string) (k : string) : list string :=
  if existsb (String.eqb k) acc then acc else acc ++ [k].

(** What [normalizeOne] works on: arrays and plain objects. *)
Definition is_object (x : value) : bool :=
  match x with
  | VArr _ | VObj _ => true
  | _ => false
  end.

(** The engine turns the value into a string or a number without raising a
    TypeError.  It raises one for an object that has a property [toString] of
    its own, which in a parsed document is never a function; an array is
    converted through its items. *)
Fixpoint converts (v : value) : bool :=
  match v with
  | VArr items => forallb converts items
  | VObj ps =>
      match lookup "toString" ps with
      | Some _ => false
      | None => true
      end
  | _ => true
  end.

(** What [normalizeOne] hands to [parseFloat]. *)
Definition coerced (x : value) : list value :=
  [ coalesce (get x "lat") (get x "latitude");
    coalesce (coalesce (get x "lon") (get x "lng")) (get x "longitude");
    coalesce
      (coalesce (coalesce (get x "raio_m") (get x "raio")) (get x "radius_m"))
      (VNum (num_of_N 300)) ].

(** [normalizeOne] raises nothing on the item: it converts nothing of it, or
    only values that convert. *)
Definition normalizable (x : value) : bool :=
  negb (is_object x) || forallb converts (coerced x).

(** The two [isNaN] of the validation loop raise nothing at the item. *)
Definition checkable (item : value) : bool :=
  converts (get item "lat") && converts (get item "lon").

(** The child neither closes nor fails until after the deadline. *)
Definition overdue (evs : list (Z * event)) : Prop :=
  Forall (fun te => is_data (snd te) = false -> TIMEOUT_MS < fst te) evs.

(** The states an invocation can be in: pending with the timer armed,
    settled by 'close' or 'error' with the timer cleared, or timed out. *)
Definition reachable (p : invocation) : Prop :=
  (pending p /\ killed p = false)
  \/ (timeout p = Cleared /\ settled p <> None /\ killed p = false)
  \/ timed_out p.

(** The outermost open container of the automaton of [JSON.parse] is an
    object. *)
Definition root_is_object (stack : list JSON.frame) : bool :=
  match rev stack with
  | JSON.InObject _ _ :: _ => true
  | _ => false
  end.

(** The automaton is inside a document whose outermost value is an object,
    or has just finished one. *)
Definition in_root_object (e : JSON.expect) (stack : list JSON.frame) : Prop :=
  match e with
  | JSON.AEnd v => stack = [] /\ exists ps, v = VObj ps
  | JSON.AKeyOrClose | JSON.AKey _ | JSON.AColon _ _ =>
      stack = [] \/ root_is_object stack = true
  | JSON.AValue | JSON.AValueOrClose | JSON.ANext =>
      root_is_object stack = true
  end.

(* ================================================================== *)
(** ** Lemmas *)
(* ================================================================== *)

Arguments decimal : simpl never.
Arguments Number_toString : simpl never.
Arguments parseFloat : simpl never.
Arguments trim : simpl never.
Arguments extractJSON : simpl never.
Arguments JSON.parse : simpl never.
Arguments isNaN : simpl never.
Arguments ToString : simpl never.

(** *** The platform model on known cases *)

Example parseFloat_prefix :
  map parseFloat_string ["12.5"; "  -3e2px"; ".5"; "5."; "1e"; "abc"; ""; "-Infinityx"; "0x10"]
  = [ Finite false 125 (-1); Finite true 3 2; Finite false 5 (-1); Finite false 5 0;
      Finite false 1 0; NaN; NaN; Infinity true; Finite false 0 0 ].
Proof. vm_compute. reflexivity. Qed.

Example parseFloat_of_values :
  map parseFloat [VNum (Finite false 300 0); VUndef; VNull; VBool true;
                  VArr [VStr "7.5"; VNull]; VObj []]
  = map VNum [Finite false 300 0; NaN; NaN; NaN; Finite false 75 (-1); NaN].
Proof. vm_compute. reflexivity. Qed.

Example parseFloat_range :
  map parseFloat_string ["1.7976931348623158e308"; "1.7976931348623159e308"; "1e-400"]
  = [Finite false 17976931348623158 292; Infinity false; Finite false 0 0].
Proof. vm_compute. reflexivity. Qed.

Example isNaN_coerces :
  map isNaN [VUndef; VNull; VBool true; VStr ""; VStr " 12 "; VStr "12px";
             VStr "0x1F"; VArr []; VArr [VStr "5"]; VObj []; VNum NaN]
  = [true; false; false; false; false; true; false; false; false; true; true].
Proof. vm_compute. reflexivity. Qed.

Example Number_toString_forms :
  map Number_toString
    [ Finite false 1700000000000 0; Finite false 125 (-1); Finite true 5 (-7);
      Finite false 1 21; Finite false 123 (-5); Finite true 0 0; Finite false 1200 (-2) ]
  = ["1700000000000"; "12.5"; "-5e-7"; "1e+21"; "0.00123"; "0"; "12"].
Proof. vm_compute. reflexivity. Qed.

Example trim_both_ends :
  trim (LF ++ "  a b " ++ LF) = "a b".
Proof. vm_compute. reflexivity. Qed.

Example JSON_parse_documents :
  map (fun s => JSON.parse (json_text s))
    [ "{'a':[1,{'c':null}],'d':'x'}"; " [1, 2.50, -0, 1e2] "; "'a\u0041\n'";
      "{'a':1,'b':2,'a':3}"; "0"; "''"; "null" ]
  = [ Some (VObj [ ("a", VArr [VNum (Finite false 1 0); VObj [("c", VNull)]]);
                   ("d", VStr "x") ]);
      Some (VArr [ VNum (Finite false 1 0); VNum (Finite false 250 (-2));
                   VNum (Finite true 0 0); VNum (Finite false 1 2) ]);
      Some (VStr ("aA" ++ LF));
      Some (VObj [("a", VNum (Finite false 3 0)); ("b", VNum (Finite false 2 0))]);
      Some (VNum (Finite false 0 0)); Some (VStr ""); Some VNull ].
Proof. vm_compute. reflexivity. Qed.

Example JSON_parse_syntax_errors :
  map (fun s => JSON.parse (json_text s))
    [ "[warn] x"; "01"; "1."; "{'a':1,}"; "[1,]"; ""; "nul"; "true false";
      "'abc"; "{'a' 1}"; "["; "{}}"; "+1"; ".5"; "{a:1}"; "'a\qb'"; "NaN" ]
  = repeat None 17.
Proof. vm_compute. reflexivity. Qed.

Example normalizeOne_aliases :
  normalizeOne 1700
    (VObj [ ("sub_id", VStr "s1"); ("latitude", VStr "1.5");
            ("lng", VNum (Finite false 2 0)); ("raio", VNum (Finite false 50 0)) ])
  = VObj [ ("id", VStr "s1"); ("lat", VNum (Finite false 15 (-1)));
           ("lon", VNum (Finite false 2 0)); ("raio_m", VNum (Finite false 50 0));
           ("sub_id", VStr "s1"); ("latitude", VStr "1.5");
           ("lng", VNum (Finite false 2 0)); ("raio", VNum (Finite false 50 0)) ].
Proof. vm_compute. reflexivity. Qed.

Example normalizeOne_passthrough :
  map (normalizeOne 1700) [VNull; VNum (Finite false 5 0); VStr "x"; VUndef]
  = [VNull; VNum (Finite false 5 0); VStr "x"; VUndef]
  /\ normalizeOne 1700 (VObj [])
     = VObj [ ("id", VStr "temp_1700"); ("lat", VNum NaN); ("lon", VNum NaN);
              ("raio_m", VNum (Finite false 300 0)) ].
Proof. split; vm_compute; reflexivity. Qed.

Section Extraction.

Lemma chars_app a b : chars (a ++ b)%string = chars a ++ chars b.
Proof.
  unfold chars. induction a as [| c a IH]; simpl; [reflexivity |].
  rewrite IH. reflexivity.
Qed.

Lemma chars_length s : List.length (chars s) = String.length s.
Proof.
  unfold chars. induction s as [| c s IH]; simpl; [reflexivity |].
  rewrite IH. reflexivity.
Qed.

Lemma str_chars s : str (chars s) = s.
Proof. apply string_of_list_ascii_of_string. Qed.

Lemma chars_str l : chars (str l) = l.
Proof. apply list_ascii_of_string_of_list_ascii. Qed.

Lemma str_app a b : str (a ++ b) = (str a ++ str b)%string.
Proof.
  unfold str. induction a as [| c a IH]; simpl; [reflexivity |].
  rewrite IH. reflexivity.
Qed.

Lemma append_associative a b c :
  ((a ++ b) ++ c)%string = (a ++ b ++ c)%string.
Proof. induction a as [| x a IH]; simpl; [reflexivity | rewrite IH; reflexivity]. Qed.

Section Index.

Variable c : ascii.

(** [indexOf]: the position of the first occurrence, or -1. *)
Lemma index_from_absent l : forall i, ~ In c l -> index_from c i l = -1.
Proof.
  induction l as [| a r IH]; intros i Hn; simpl; [reflexivity |].
  destruct (Ascii.eqb_spec a c) as [-> | _].
  - exfalso. apply Hn. left. reflexivity.
  - apply IH. intros H. apply Hn. right. assumption.
Qed.

Lemma index_from_first pre rest : forall i,
  ~ In c pre ->
  index_from c i (pre ++ c :: rest) = i + Z.of_nat (List.length pre).
Proof.
  induction pre as [| a r IH]; intros i Hn; simpl.
  - rewrite Ascii.eqb_refl. lia.
  - destruct (Ascii.eqb_spec a c) as [-> | _].
    + exfalso. apply Hn. left. reflexivity.
    + rewrite IH by (intros H; apply Hn; right; assumption). lia.
Qed.

Lemma index_from_found l : forall i,
  index_from c i l <> -1 ->
  exists pre rest, l = pre ++ c :: rest /\ ~ In c pre.
Proof.
  induction l as [| a r IH]; intros i H; simpl in H; [congruence |].
  destruct (Ascii.eqb_spec a c) as [-> | Hne].
  - exists [], r. split; [reflexivity | intros []].
  - destruct (IH _ H) as (pre & rest & -> & Hn).
    exists (a :: pre), rest. split; [reflexivity |].
    intros [E | E]; [congruence | contradiction].
Qed.

Lemma index_from_spec l : forall i,
  (~ In c l /\ index_from c i l = -1)
  \/ (exists pre rest,
        l = pre ++ c :: rest /\ ~ In c pre
        /\ index_from c i l = i + Z.of_nat (List.length pre)).
Proof.
  induction l as [| a r IH]; intros i; [left; split; [intros [] | reflexivity] |].
  cbn [index_from]. destruct (Ascii.eqb_spec a c) as [-> | Hne].
  - right. exists [], r. repeat split; [intros [] | simpl; lia].
  - destruct (IH (i + 1)) as [[Hn E] | (pre & rest & -> & Hn & E)].
    + left. split; [| assumption].
      intros [H | H]; [congruence | contradiction].
    + right. exists (a :: pre), rest. repeat split.
      * intros [H | H]; [congruence | contradiction].
      * rewrite E. cbn [List.length]. lia.
Qed.

(** An occurrence bounds the first one from above... *)
Lemma index_from_bound a b :
  0 <= index_from c 0 (a ++ c :: b) <= Z.of_nat (List.length a).
Proof.
  destruct (index_from_spec (a ++ c :: b) 0)
    as [[Hn _] | (pre & rest & E & Hn & ->)].
  - exfalso. apply Hn, in_or_app. right. left. reflexivity.
  - split; [lia |].
    apply app_eq_app in E as [m [[Ea Eb] | [Ea Eb]]].
    + rewrite Ea, List.length_app. lia.
    + destruct m as [| x m]; [rewrite Ea, app_nil_r; lia |].
      injection Eb as <- _. exfalso. apply Hn. rewrite Ea.
      apply in_or_app. right. left. reflexivity.
Qed.

(** [lastIndexOf]: the position of the last occurrence, or -1. *)
Lemma last_index_from_absent l : forall i found,
  ~ In c l -> last_index_from c i found l = found.
Proof.
  induction l as [| a r IH]; intros i found Hn; simpl; [reflexivity |].
  destruct (Ascii.eqb_spec a c) as [-> | _].
  - exfalso. apply Hn. left. reflexivity.
  - apply IH. intros H. apply Hn. right. assumption.
Qed.

Lemma last_index_from_last front post : forall i found,
  ~ In c post ->
  last_index_from c i found (front ++ c :: post)
  = i + Z.of_nat (List.length front).
Proof.
  induction front as [| a r IH]; intros i found Hn.
  - simpl. rewrite Ascii.eqb_refl, last_index_from_absent by assumption. lia.
  - cbn [app last_index_from]. rewrite IH by assumption.
    cbn [List.length]. lia.
Qed.

Lemma last_index_from_spec l : forall i found,
  (~ In c l /\ last_index_from c i found l = found)
  \/ (exists front post,
        l = front ++ c :: post /\ ~ In c post
        /\ last_index_from c i found l = i + Z.of_nat (List.length front)).
Proof.
  induction l as [| a r IH]; intros i found; [left; split; [intros [] | reflexivity] |].
  cbn [last_index_from].
  destruct (IH (i + 1) (if Ascii.eqb a c then i else found))
    as [[Hn E] | (front & post & -> & Hn & E)].
  - destruct (Ascii.eqb_spec a c) as [-> | Hne].
    + right. exists [], r. repeat split; [assumption | rewrite E; simpl; lia].
    + left. split; [| assumption].
      intros [H | H]; [congruence | contradiction].
  - right. exists (a :: front), post.
    repeat split; [assumption | rewrite E; cbn [List.length]; lia].
Qed.

Lemma last_index_from_found l i found :
  last_index_from c i found l <> found ->
  exists front post, l = front ++ c :: post /\ ~ In c post.
Proof.
  intros H.
  destruct (last_index_from_spec l i found)
    as [[_ E] | (front & post & E & Hn & _)]; [congruence | eauto].
Qed.

(** ... and the last one from below. *)
Lemma last_index_from_bound a b :
  Z.of_nat (List.length a) <= last_index_from c 0 (-1) (a ++ c :: b).
Proof.
  destruct (last_index_from_spec (a ++ c :: b) 0 (-1))
    as [[Hn _] | (front & post & E & Hn & ->)].
  - exfalso. apply Hn, in_or_app. right. left. reflexivity.
  - apply app_eq_app in E as [m [[Ea Eb] | [Ea Eb]]].
    + destruct m as [| x m]; [rewrite Ea, app_nil_r; lia |].
      injection Eb as <- Eb. exfalso. apply Hn. rewrite Eb.
      apply in_or_app. right. left. reflexivity.
    + rewrite Ea, List.length_app. lia.
Qed.

End Index.

Lemma substring_middle a b c :
  String.substring (String.length a) (String.length b) (a ++ b ++ c)%string = b.
Proof.
  induction a as [| x a IH]; simpl; [| exact IH].
  induction b as [| y b IHb]; simpl.
  - destruct c; reflexivity.
  - rewrite IHb. reflexivity.
Qed.

Lemma string_length_app a b :
  String.length (a ++ b)%string = (String.length a + String.length b)%nat.
Proof. induction a as [| x a IH]; simpl; [reflexivity | rewrite IH; reflexivity]. Qed.

(** The three ways out of [extractJSON]. *)
Lemma extractJSON_cases raw :
  extractJSON raw =
    match JSON.parse raw with
    | Some doc => Ok doc
    | None =>
        let firstBrace := indexOf raw "{"%char in
        let lastBrace := lastIndexOf raw "}"%char in
        if negb (firstBrace =? -1) && negb (lastBrace =? -1)
           && (firstBrace <? lastBrace)
        then
          match JSON.parse (substring raw firstBrace (lastBrace + 1)) with
          | Some doc => Ok doc
          | None => Ok VNull
          end
        else Ok VNull
    end.
Proof.
  unfold extractJSON, JSON_parse, try_catch.
  destruct (JSON.parse raw); [reflexivity |].
  cbv zeta. destruct (_ && _); [| reflexivity].
  destruct (JSON.parse _); reflexivity.
Qed.

Lemma extractJSON_returns raw : exists v, extractJSON raw = Ok v.
Proof.
  rewrite extractJSON_cases. destruct (JSON.parse raw); [eauto |].
  cbv zeta. destruct (_ && _); [| eauto].
  destruct (JSON.parse _); eauto.
Qed.

(** With the first opening brace at the end of [pre] and the last closing
    brace just before [post], the candidate is what lies between them. *)
Lemma braces_found pre mid post :
  ~ In "{"%char (chars pre) -> ~ In "}"%char (chars post) ->
  let raw := (pre ++ "{" ++ mid ++ "}" ++ post)%string in
  let firstBrace := indexOf raw "{"%char in
  let lastBrace := lastIndexOf raw "}"%char in
  (negb (firstBrace =? -1) && negb (lastBrace =? -1)
     && (firstBrace <? lastBrace)) = true
  /\ substring raw firstBrace (lastBrace + 1) = ("{" ++ mid ++ "}")%string.
Proof.
  intros Hpre Hpost raw firstBrace lastBrace.
  assert (Hf : firstBrace = Z.of_nat (String.length pre)).
  { unfold firstBrace, indexOf, raw. rewrite chars_app.
    change (chars ("{" ++ mid ++ "}" ++ post)%string)
      with ("{"%char :: chars (mid ++ "}" ++ post)%string).
    rewrite index_from_first, chars_length by assumption. lia. }
  assert (Hl : lastBrace
               = Z.of_nat (String.length pre + 1 + String.length mid)).
  { unfold lastBrace, lastIndexOf, raw.
    replace (chars (pre ++ "{" ++ mid ++ "}" ++ post)%string)
      with (chars (pre ++ "{" ++ mid)%string ++ "}"%char :: chars post).
    2:{ rewrite !chars_app. cbn [chars list_ascii_of_string app].
        rewrite <- !app_assoc. reflexivity. }
    rewrite last_index_from_last by assumption.
    rewrite chars_length, !string_length_app. cbn [String.length]. lia. }
  split.
  - rewrite Hf, Hl.
    repeat (apply andb_true_iff; split).
    + apply negb_true_iff, Z.eqb_neq. lia.
    + apply negb_true_iff, Z.eqb_neq. lia.
    + apply Z.ltb_lt. lia.
  - unfold substring. rewrite Hf, Hl.
    assert (Hlen : String.length raw
                   = (String.length pre + (1 + String.length mid + 1)
                      + String.length post)%nat).
    { unfold raw. rewrite !string_length_app. cbn [String.length]. lia. }
    rewrite Hlen.
    replace (Z.to_nat _) with (String.length pre) by lia.
    replace (Z.to_nat _)
      with (String.length ("{" ++ mid ++ "}")%string).
    2:{ rewrite !string_length_app. cbn [String.length]. lia. }
    unfold raw.
    replace (pre ++ "{" ++ mid ++ "}" ++ post)%string
      with (pre ++ ("{" ++ mid ++ "}") ++ post)%string.
    + apply substring_middle.
    + f_equal. cbn [append]. f_equal. apply append_associative.
Qed.

(** Conversely, when the guard of [extractJSON] holds, the text splits at
    its first opening brace and its last closing brace. *)
Lemma braces_exist raw :
  let firstBrace := indexOf raw "{"%char in
  let lastBrace := lastIndexOf raw "}"%char in
  (negb (firstBrace =? -1) && negb (lastBrace =? -1)
     && (firstBrace <? lastBrace)) = true ->
  exists pre mid post,
    raw = (pre ++ "{" ++ mid ++ "}" ++ post)%string
    /\ ~ In "{"%char (chars pre)
    /\ ~ In "}"%char (chars post).
Proof.
  intros firstBrace lastBrace H.
  apply andb_true_iff in H as [H Hlt]. apply andb_true_iff in H as [H1 H2].
  apply negb_true_iff, Z.eqb_neq in H1, H2. apply Z.ltb_lt in Hlt.
  destruct (index_from_found _ _ _ H1) as (pre & rest & E1 & Hpre).
  destruct (last_index_from_found _ _ _ _ H2) as (front & post & E2 & Hpost).
  assert (Hf : firstBrace = Z.of_nat (List.length pre)).
  { unfold firstBrace, indexOf. rewrite E1, index_from_first by assumption. lia. }
  assert (Hl : lastBrace = Z.of_nat (List.length front)).
  { unfold lastBrace, lastIndexOf.
    rewrite E2, last_index_from_last by assumption. lia. }
  assert (E : pre ++ "{"%char :: rest = front ++ "}"%char :: post) by congruence.
  apply app_eq_app in E as [m [[Ea Eb] | [Ea Eb]]].
  - exfalso. rewrite Hf, Hl, Ea, List.length_app in Hlt. lia.
  - destruct m as [| x m].
    + exfalso. rewrite app_nil_r in Ea. rewrite Hf, Hl, Ea in Hlt. lia.
    + injection Eb as <- Eb.
      exists (str pre), (str m), (str post).
      rewrite !chars_str. repeat split; try assumption.
      rewrite <- (str_chars raw), E2, Ea.
      rewrite <- app_assoc, !str_app. reflexivity.
Qed.

(** Any opening brace followed by a closing brace makes the guard hold. *)
Lemma brace_pair_guard pre mid post :
  let raw := (pre ++ "{" ++ mid ++ "}" ++ post)%string in
  let firstBrace := indexOf raw "{"%char in
  let lastBrace := lastIndexOf raw "}"%char in
  (negb (firstBrace =? -1) && negb (lastBrace =? -1)
     && (firstBrace <? lastBrace)) = true.
Proof.
  intros raw firstBrace lastBrace.
  assert (Hf : 0 <= firstBrace <= Z.of_nat (String.length pre)).
  { unfold firstBrace, indexOf, raw. rewrite chars_app, <- chars_length.
    apply index_from_bound. }
  assert (Hl : Z.of_nat (String.length pre + 1 + String.length mid) <= lastBrace).
  { unfold lastBrace, lastIndexOf, raw.
    replace (chars (pre ++ "{" ++ mid ++ "}" ++ post)%string)
      with (chars (pre ++ "{" ++ mid)%string ++ "}"%char :: chars post).
    2:{ rewrite !chars_app. cbn [chars list_ascii_of_string app].
        rewrite <- !app_assoc. reflexivity. }
    replace (String.length pre + 1 + String.length mid)%nat
      with (List.length (chars (pre ++ "{" ++ mid)%string)).
    - apply last_index_from_bound.
    - rewrite chars_length, !string_length_app. cbn [String.length]. lia. }
  repeat (apply andb_true_iff; split).
  - apply negb_true_iff, Z.eqb_neq. lia.
  - apply negb_true_iff, Z.eqb_neq. lia.
  - apply Z.ltb_lt. lia.
Qed.

End Extraction.

Section Normalization.

Lemma lookup_assign k k' v ps :
  lookup k (assign k' v ps) = if String.eqb k k' then Some v else lookup k ps.
Proof.
  induction ps as [| [k0 v0] r IH]; simpl.
  - destruct (String.eqb k k'); reflexivity.
  - destruct (String.eqb_spec k' k0) as [-> | Hne]; simpl.
    + destruct (String.eqb k k0); reflexivity.
    + rewrite IH. destruct (String.eqb_spec k k0) as [-> | _]; [| reflexivity].
      destruct (String.eqb_spec k0 k'); [congruence | reflexivity].
Qed.

(** A spread leaves alone the keys its operand does not have... *)
Lemma lookup_assign_all_absent k src : forall dst,
  lookup k src = None -> lookup k (assign_all src dst) = lookup k dst.
Proof.
  unfold assign_all.
  induction src as [| [k0 v0] r IH]; intros dst H; simpl in *; [reflexivity |].
  destruct (String.eqb_spec k k0) as [-> | Hne]; [discriminate |].
  rewrite IH by assumption. rewrite lookup_assign.
  destruct (String.eqb_spec k k0); [congruence | reflexivity].
Qed.

(** ... and overwrites the ones it has. *)
Lemma lookup_assign_all_present k v src : forall dst,
  NoDup (map fst src) -> lookup k src = Some v ->
  lookup k (assign_all src dst) = Some v.
Proof.
  unfold assign_all.
  induction src as [| [k0 v0] r IH]; intros dst Hnd H; simpl in *; [discriminate |].
  inversion Hnd as [| x l Hnotin Hnd']; subst.
  destruct (String.eqb_spec k k0) as [-> | Hne].
  - injection H as ->.
    assert (Hr : lookup k0 r = None).
    { clear - Hnotin. induction r as [| [k1 v1] r IH]; simpl; [reflexivity |].
      destruct (String.eqb_spec k0 k1) as [-> | _].
      - exfalso. apply Hnotin. left. reflexivity.
      - apply IH. intros H. apply Hnotin. right. assumption. }
    pose proof (lookup_assign_all_absent k0 r (assign k0 v dst) Hr) as E.
    unfold assign_all in E. rewrite E, lookup_assign, String.eqb_refl.
    reflexivity.
  - apply IH; assumption.
Qed.

Section One.

Variable now : N.

Lemma normalizeOne_object ps :
  normalizeOne now (VObj ps) = VObj (assign_all ps (canonical now (VObj ps))).
Proof. reflexivity. Qed.

(** Every field of the input is in the output with its raw value. *)
Lemma normalizeOne_keeps_raw ps k v :
  NoDup (map fst ps) -> lookup k ps = Some v ->
  get (normalizeOne now (VObj ps)) k = v.
Proof.
  intros Hnd H. rewrite normalizeOne_object. unfold get. cbn [own_props].
  rewrite (lookup_assign_all_present k v) by assumption. reflexivity.
Qed.

(** A canonical field the input does not have takes the computed value. *)
Lemma normalizeOne_fills ps k :
  lookup k ps = None ->
  get (normalizeOne now (VObj ps)) k
  = match lookup k (canonical now (VObj ps)) with
    | Some v => v
    | None => VUndef
    end.
Proof.
  intros H. rewrite normalizeOne_object. unfold get. cbn [own_props].
  rewrite lookup_assign_all_absent by assumption. reflexivity.
Qed.

(** Without any radius field the radius is 300. *)
Lemma normalizeOne_default_radius ps :
  lookup "raio_m" ps = None -> lookup "raio" ps = None ->
  lookup "radius_m" ps = None ->
  get (normalizeOne now (VObj ps)) "raio_m" = VNum (Finite false 300 0).
Proof.
  intros H1 H2 H3. rewrite normalizeOne_fills by assumption.
  cbn [canonical lookup String.eqb Ascii.eqb Bool.eqb].
  unfold get. cbn [own_props]. rewrite H1, H2, H3. reflexivity.
Qed.

End One.

Lemma map_normalizeOne_length clock l : forall i,
  List.length (map_normalizeOne clock i l) = List.length l.
Proof. induction l as [| x r IH]; intros i; simpl; [| rewrite IH]; reflexivity. Qed.

Lemma map_normalizeOne_nth clock l : forall i n x,
  nth_error l n = Some x ->
  nth_error (map_normalizeOne clock i l) n = Some (normalizeOne (clock (i + n)%nat) x).
Proof.
  induction l as [| y r IH]; intros i n x H; [destruct n; discriminate |].
  destruct n as [| n]; simpl in *.
  - injection H as ->. rewrite Nat.add_0_r. reflexivity.
  - rewrite (IH (S i) n x H). do 3 f_equal. lia.
Qed.

End Normalization.

Section Endpoint.

Variables (clock : nat -> N) (child : list (Z * event)).

Lemma check_items_rejects arr :
  Exists (fun item => (isNaN (get item "lat") || isNaN (get item "lon")) = true) arr ->
  exists err, check_items arr = Throw err.
Proof.
  induction arr as [| item r IH]; intros H; [inversion H |].
  cbn [check_items].
  destruct (nullish item) eqn:Hn.
  - destruct item; try discriminate; simpl; eauto.
  - assert (Hm : forall k, member item k = Ok (get item k))
      by (intros k; destruct item; try discriminate; reflexivity).
    rewrite !Hm. cbn [bind].
    destruct (isNaN (get item "lat")) eqn:Hlat; cbn [bind]; [eauto |].
    destruct (isNaN (get item "lon")) eqn:Hlon; cbn [bind]; [eauto |].
    { apply IH. inversion H as [x l Hx | x l Hx]; subst; [| assumption].
        rewrite Hlat, Hlon in Hx. discriminate. }
Qed.

Lemma scan_throw req_body err :
  prepare clock req_body = Throw err ->
  scan clock child req_body = (Some (failure err), []).
Proof. intros H. unfold scan. rewrite H. reflexivity. Qed.

Lemma failure_shape err :
  status (failure err) = 500 /\ get (body (failure err)) "ok" = VBool false.
Proof. split; reflexivity. Qed.

(** What the validation does reject: an empty array, and a batch with an
    item whose [lat] or [lon] the handler's own [isNaN] rejects, are answered
    with status 500 and no child is spawned. *)
Lemma scan_rejects req_body :
  as_array (normalizePayload clock req_body) = []
  \/ Exists (fun item =>
               (isNaN (get item "lat") || isNaN (get item "lon")) = true)
       (as_array (normalizePayload clock req_body)) ->
  exists r,
    scan clock child req_body = (Some r, [])
    /\ status r = 500
    /\ get (body r) "ok" = VBool false.
Proof.
  intros H.
  assert (Hthrow : exists err, prepare clock req_body = Throw err).
  { unfold prepare. cbv zeta. destruct H as [-> | Hex]; [simpl; eauto |].
    destruct (Z.of_nat _ =? 0); [eauto |].
    destruct (check_items_rejects _ Hex) as [err ->]. simpl. eauto. }
  destruct Hthrow as [err Herr].
  exists (failure err). rewrite (scan_throw req_body err Herr).
  destruct (failure_shape err). auto.
Qed.

End Endpoint.

Section Invocation.

Variable payload : value.

(** The three settlements the 'close' handler can ask for. *)
Ltac close_cases :=
  destruct (correlate _ _) as [[? | ?] | ?]; unfold resolve, reject.

Lemma settle_settled o p : settled (settle o p) <> None.
Proof. unfold settle. destruct (settled p) eqn:E; simpl; congruence. Qed.

Lemma settle_fresh o p : settled p = None -> settled (settle o p) = Some o.
Proof. intros H. unfold settle. rewrite H. reflexivity. Qed.

Lemma settle_done o o' p : settled p = Some o' -> settle o p = p.
Proof. intros H. unfold settle. rewrite H. reflexivity. Qed.

(** While the child only writes before the deadline, the timer stays armed
    and the promise pending. *)
Lemma deliver_streaming pre : streaming pre -> forall p,
  timeout p = Armed -> settled p = None ->
  deliver pre p =
    {| written := written p;
       stdout := output_of pre (stdout p);
       stderr := diagnostics_of pre (stderr p);
       timeout := Armed;
       killed := killed p;
       settled := None |}.
Proof.
  induction 1 as [| [t e] r [Ht Hd] _ IH]; intros p Ha Hs.
  - simpl. destruct p; simpl in *; subst; reflexivity.
  - simpl in Ht, Hd. cbn [deliver].
    assert (Htick : tick t p = p).
    { unfold tick. rewrite Ha.
      destruct (TIMEOUT_MS <=? t) eqn:E; [apply Z.leb_le in E; lia | reflexivity]. }
    rewrite Htick.
    destruct e; try discriminate; cbn [handle];
      rewrite IH by (simpl; assumption); simpl; reflexivity.
Qed.

(** A settled promise with a timer that is no longer armed is final. *)
Lemma step_final t e p o :
  settled p = Some o -> timeout p <> Armed ->
  settled (handle e (tick t p)) = Some o
  /\ timeout (handle e (tick t p)) = timeout p
  /\ killed (handle e (tick t p)) = killed p.
Proof.
  intros Hs Ht.
  assert (Htick : tick t p = p).
  { unfold tick. destruct (timeout p); congruence. }
  rewrite Htick.
  destruct e; cbn [handle].
  - simpl; auto.
  - simpl; auto.
  - unfold on_error, reject.
    rewrite (settle_done _ o) by (simpl; assumption).
    simpl. destruct (timeout p); try congruence; auto.
  - unfold on_close.
    close_cases; rewrite (settle_done _ o) by (simpl; assumption);
      simpl; destruct (timeout p); try congruence; auto.
Qed.

Lemma deliver_final evs : forall p o,
  settled p = Some o -> timeout p <> Armed ->
  settled (deliver evs p) = Some o
  /\ timeout (deliver evs p) = timeout p
  /\ killed (deliver evs p) = killed p.
Proof.
  induction evs as [| [t e] r IH]; intros p o Hs Ht; [simpl; auto |].
  cbn [deliver].
  destruct (step_final t e p o Hs Ht) as (Hs' & Ht' & Hk').
  destruct (IH _ o Hs') as (A & B & C); [congruence |].
  rewrite A, B, C, Ht', Hk'. auto.
Qed.

Lemma tick_final t p : timeout p <> Armed -> tick t p = p.
Proof. unfold tick. destruct (timeout p); congruence. Qed.

Lemma tick_early t p : t < TIMEOUT_MS -> tick t p = p.
Proof.
  intros Ht. unfold tick. destruct (timeout p); try reflexivity.
  destruct (TIMEOUT_MS <=? t) eqn:E; [apply Z.leb_le in E; lia | reflexivity].
Qed.

Lemma deliver_app pre post p :
  deliver (pre ++ post) p = deliver post (deliver pre p).
Proof.
  revert p. induction pre as [| [t e] r IH]; intros p; simpl; [reflexivity |].
  apply IH.
Qed.

(** A child that only writes and then closes before the deadline: the
    promise is settled by the 'close' handler, and stays so. *)
Lemma finish_close pre t code post :
  streaming pre -> t < TIMEOUT_MS ->
  let p := finish payload (pre ++ (t, Close code) :: post) in
  settled p = Some (close_outcome code (at_close payload pre))
  /\ timeout p = Cleared /\ killed p = false.
Proof.
  intros Hpre Ht. cbv zeta. unfold finish.
  rewrite deliver_app, (deliver_streaming pre Hpre) by reflexivity.
  cbn [deliver spawn written stdout stderr killed].
  rewrite (tick_early t) by assumption.
  set (p0 := {| written := payload; stdout := output_of pre "";
                stderr := diagnostics_of pre ""; timeout := Armed;
                killed := false; settled := None |}).
  assert (Hc : settled (handle (Close code) p0)
               = Some (close_outcome code (at_close payload pre))
               /\ timeout (handle (Close code) p0) = Cleared
               /\ killed (handle (Close code) p0) = false).
  { cbn [handle]. unfold on_close, close_outcome.
    change (clearTimeout p0) with (at_close payload pre).
    close_cases; rewrite settle_fresh by reflexivity;
      unfold settle; simpl; auto. }
  destruct Hc as (A & B & C).
  destruct (deliver_final post _ _ A) as (A' & B' & C'); [congruence |].
  rewrite tick_final by congruence.
  rewrite A', B', C', B, C. auto.
Qed.

Lemma member_truthy v k : truthy v = true -> member v k = Ok (get v k).
Proof. destruct v; simpl; try discriminate; reflexivity. Qed.

Lemma correlate_falsy code p parsed :
  extractJSON (trim (stdout p)) = Ok parsed -> truthy parsed = false ->
  correlate code p = Ok (Rejected (invalid_output code p)).
Proof.
  intros He Hf. unfold correlate. rewrite He. cbn [bind]. rewrite Hf.
  reflexivity.
Qed.

Lemma correlate_truthy code p parsed :
  extractJSON (trim (stdout p)) = Ok parsed -> truthy parsed = true ->
  correlate code p =
    Ok (if strict_eq code (VNum (num_of_N 0))
           && strict_eq (get parsed "ok") (VBool true)
        then Resolved (success parsed p)
        else Rejected (logical_error code parsed (get parsed "error") p)).
Proof.
  intros He Hf. unfold correlate. rewrite He. cbn [bind]. rewrite Hf.
  cbn [negb]. rewrite !member_truthy by assumption. cbn [bind].
  destruct (strict_eq code _ && strict_eq _ _); reflexivity.
Qed.

(** [code === 0] and [parsed.ok === true] *)
Lemma exit_code_zero code :
  strict_eq (code_value code) (VNum (num_of_N 0)) = true <-> code = Some 0.
Proof.
  destruct code as [z |]; simpl; [| split; discriminate].
  split.
  - intros H. f_equal.
    destruct (N.eqb_spec (Z.abs_N z) 0) as [E | E]; [lia |].
    simpl in H. apply andb_true_iff in H as [_ H].
    apply Z.eqb_eq in H. lia.
  - intros H. injection H as ->. reflexivity.
Qed.

Lemma flag_true v : strict_eq v (VBool true) = true <-> v = VBool true.
Proof.
  split; [| intros ->; reflexivity].
  destruct v as [| | b | n | | |]; simpl; try discriminate.
  - destruct b; [reflexivity | discriminate].
  - destruct n; discriminate.
Qed.

Lemma on_timeout_pending p : pending p -> timed_out (on_timeout p).
Proof.
  intros [_ Hs]. unfold timed_out, on_timeout, reject, kill, settle.
  simpl. rewrite Hs. simpl. auto.
Qed.

Lemma handle_timed_out e p : timed_out p -> timed_out (handle e p).
Proof.
  intros (Ht & Hs & Hk).
  assert (Hfinal : timeout p <> Armed) by congruence.
  destruct (step_final TIMEOUT_MS e p _ Hs Hfinal) as (A & B & C).
  rewrite tick_final in A, B, C by assumption.
  unfold timed_out. rewrite A, B, C. auto.
Qed.

Lemma handle_data_pending e p :
  is_data e = true -> pending p -> pending (handle e p).
Proof.
  intros Hd [Ht Hs]. destruct e; try discriminate; simpl; split; assumption.
Qed.

Lemma deliver_overdue evs : forall p,
  Forall (fun te => is_data (snd te) = false -> TIMEOUT_MS < fst te) evs ->
  pending p \/ timed_out p ->
  pending (deliver evs p) \/ timed_out (deliver evs p).
Proof.
  induction evs as [| [t e] r IH]; intros p Hall Hp; [exact Hp |].
  inversion Hall as [| x l Hte Hr]; subst. simpl in Hte.
  cbn [deliver]. apply IH; [assumption |].
  destruct Hp as [Hp | Hp].
  - unfold tick. destruct Hp as [Ha Hs]. rewrite Ha.
    destruct (TIMEOUT_MS <=? t) eqn:E.
    + right. apply handle_timed_out, on_timeout_pending. split; assumption.
    + apply Z.leb_gt in E.
      destruct (is_data e) eqn:Hd.
      * left. apply handle_data_pending; [assumption | split; assumption].
      * specialize (Hte eq_refl). lia.
  - right. rewrite tick_final by (destruct Hp as (Ht & _); congruence).
    apply handle_timed_out. assumption.
Qed.

(** The promise always settles. *)
Lemma unsettled_armed evs : forall p,
  (settled p = None -> timeout p = Armed) ->
  settled (deliver evs p) = None -> timeout (deliver evs p) = Armed.
Proof.
  induction evs as [| [t e] r IH]; intros p Hp; [exact Hp |].
  cbn [deliver]. apply IH.
  assert (Htick : settled (tick t p) = None -> timeout (tick t p) = Armed).
  { unfold tick. destruct (timeout p) eqn:Ht; try (intros H; apply Hp in H; congruence).
    destruct (TIMEOUT_MS <=? t); [| intros; assumption].
    intros H. exfalso. revert H. unfold on_timeout, reject. apply settle_settled. }
  destruct e; cbn [handle].
  - simpl. exact Htick.
  - simpl. exact Htick.
  - intros H. exfalso. revert H. unfold on_error, reject. apply settle_settled.
  - intros H. exfalso. revert H. unfold on_close.
    close_cases; apply settle_settled.
Qed.

Lemma runPython_settles evs : exists o, runPython payload evs = Some o.
Proof.
  unfold runPython, finish.
  destruct (settled (tick _ _)) as [o |] eqn:E; [eauto |].
  exfalso. revert E. unfold tick.
  destruct (timeout (deliver evs (spawn payload))) eqn:Ht.
  - rewrite Z.leb_refl. unfold on_timeout, reject. apply settle_settled.
  - intros E. apply unsettled_armed in E; [congruence | reflexivity].
  - intros E. apply unsettled_armed in E; [congruence | reflexivity].
Qed.

Lemma success_fields parsed p :
  success parsed p = VObj [("parsed", parsed); ("stderr", VStr (stderr p))].
Proof. reflexivity. Qed.

Lemma logical_error_fields code parsed error p :
  logical_error code parsed error p
  = VObj [ ("code", code);
           ("error", if truthy error then error else VStr "Python logical error");
           ("parsed", parsed);
           ("stderr", VStr (stderr p)) ].
Proof. reflexivity. Qed.

Lemma invalid_output_fields code p :
  invalid_output code p
  = VObj [ ("code", code);
           ("error", VStr "Invalid JSON output from Python");
           ("raw", VStr (stdout p));
           ("stderr", VStr (stderr p)) ].
Proof. reflexivity. Qed.

(** The settlement after a child that writes [pre] and closes in time. *)
Lemma runPython_close pre t code post :
  streaming pre -> t < TIMEOUT_MS ->
  runPython payload (pre ++ (t, Close code) :: post)
  = Some (close_outcome code (at_close payload pre)).
Proof.
  intros Hpre Ht. unfold runPython.
  apply (finish_close pre t code post Hpre Ht).
Qed.

Lemma close_outcome_falsy pre code parsed :
  extractJSON (trim (output_of pre "")) = Ok parsed -> truthy parsed = false ->
  close_outcome code (at_close payload pre)
  = Rejected (invalid_output (code_value code) (at_close payload pre)).
Proof.
  intros He Hf. unfold close_outcome.
  rewrite (correlate_falsy _ _ parsed) by assumption. reflexivity.
Qed.

Lemma close_outcome_truthy pre code parsed :
  extractJSON (trim (output_of pre "")) = Ok parsed -> truthy parsed = true ->
  close_outcome code (at_close payload pre)
  = if strict_eq (code_value code) (VNum (num_of_N 0))
       && strict_eq (get parsed "ok") (VBool true)
    then Resolved (success parsed (at_close payload pre))
    else Rejected (logical_error (code_value code) parsed (get parsed "error")
                     (at_close payload pre)).
Proof.
  intros He Hf. unfold close_outcome.
  rewrite (correlate_truthy _ _ parsed) by assumption.
  destruct (_ && _); reflexivity.
Qed.

Lemma success_condition code parsed :
  (strict_eq (code_value code) (VNum (num_of_N 0))
     && strict_eq (get parsed "ok") (VBool true)) = true
  <-> code = Some 0 /\ get parsed "ok" = VBool true.
Proof. rewrite andb_true_iff, exit_code_zero, flag_true. reflexivity. Qed.

(** Only a child that writes and then closes in time leads to a resolved
    promise. *)
Lemma resolved_shape evs : forall p r,
  pending p ->
  settled (tick TIMEOUT_MS (deliver evs p)) = Some (Resolved r) ->
  exists pre t code post,
    evs = pre ++ (t, Close code) :: post /\ streaming pre /\ t < TIMEOUT_MS.
Proof.
  induction evs as [| [t e] rest IH]; intros p r Hp Hr.
  - exfalso. simpl in Hr. unfold tick in Hr. destruct Hp as [Ha Hs].
    rewrite Ha, Z.leb_refl in Hr.
    destruct (on_timeout_pending p (conj Ha Hs)) as (_ & E & _). congruence.
  - cbn [deliver] in Hr.
    destruct (Z.ltb_spec t TIMEOUT_MS) as [Ht | Ht].
    + rewrite (tick_early t) in Hr by assumption.
      destruct (is_data e) eqn:Hd; [| destruct e as [d | d | err | code];
                                       try discriminate Hd].
      * destruct (IH _ r (handle_data_pending e p Hd Hp) Hr)
          as (pre & t' & code & post & -> & Hpre & Ht').
        exists ((t, e) :: pre), t', code, post.
        repeat split; [| assumption].
        constructor; [split; assumption | assumption].
      * exfalso. destruct Hp as [Ha Hs].
        assert (E : settled (handle (ErrorEvent err) p) = Some (Rejected (VObj err))).
        { cbn [handle]. unfold on_error, reject. apply settle_fresh. assumption. }
        assert (F : timeout (handle (ErrorEvent err) p) <> Armed).
        { cbn [handle]. unfold on_error, reject, settle. simpl. rewrite Hs, Ha.
          simpl. congruence. }
        destruct (deliver_final rest _ _ E F) as (A & B & _).
        rewrite tick_final in Hr by congruence. congruence.
      * exists [], t, code, rest. repeat split; [constructor | assumption].
    + exfalso.
      assert (T : timed_out (handle e (tick t p))).
      { apply handle_timed_out. unfold tick. destruct Hp as [Ha Hs]. rewrite Ha.
        destruct (Z.leb_spec TIMEOUT_MS t); [| lia].
        apply on_timeout_pending. split; assumption. }
      destruct T as (Tt & Ts & _).
      destruct (deliver_final rest _ _ Ts) as (A & B & _); [congruence |].
      rewrite tick_final in Hr by congruence. congruence.
Qed.

End Invocation.

(* ================================================================== *)
(** ** The properties of the specification *)
(* ================================================================== *)

(** C1 does not hold of the code.  The spread comes last in the literal of
    [normalizeOne], so a [lat] or [lon] of the input overwrites the coerced
    value computed for it: an item with the strings "12.5" and "-46.6" keeps
    these strings, although "12.5" coerces to the number 12.5. *)
Theorem normalizeOne_raw_overrides_coerced :
  forall now,
    let x := VObj [("lat", VStr "12.5"); ("lon", VStr "-46.6")] in
    parseFloat (coalesce (get x "lat") (get x "latitude"))
    = VNum (Finite false 125 (-1))
    /\ get (normalizeOne now x) "lat" = VStr "12.5"
    /\ get (normalizeOne now x) "lon" = VStr "-46.6".
Proof.
  intros now x. split; [vm_compute; reflexivity |].
  split; apply normalizeOne_keeps_raw; try reflexivity;
    repeat constructor; simpl; intuition discriminate.
Qed.

(** C2, amended to what the code does.  A child that only writes and closes
    before the deadline, with an output from which [extractJSON] returns a
    truthy document: the promise resolves exactly when the exit code is 0 and
    the document's [ok] is [true], with the document and the diagnostics;
    otherwise it is rejected with the exit code, the document, the
    diagnostics and, as message, the document's [error] when that is truthy
    and "Python logical error" when it is absent or falsy. *)
Theorem runPython_exit_correlation :
  forall payload pre t code post doc,
    streaming pre ->
    t < TIMEOUT_MS ->
    extractJSON (trim (output_of pre "")) = Ok doc ->
    truthy doc = true ->
    let evs := pre ++ (t, Close code) :: post in
    let diagnostics := VStr (diagnostics_of pre "") in
    (code = Some 0 /\ get doc "ok" = VBool true ->
     runPython payload evs
     = Some (Resolved (VObj [("parsed", doc); ("stderr", diagnostics)])))
    /\ (~ (code = Some 0 /\ get doc "ok" = VBool true) ->
        runPython payload evs
        = Some (Rejected
                  (VObj [ ("code", code_value code);
                          ("error",
                           if truthy (get doc "error") then get doc "error"
                           else VStr "Python logical error");
                          ("parsed", doc);
                          ("stderr", diagnostics) ])))
    /\ ((exists r, runPython payload evs = Some (Resolved r))
        <-> code = Some 0 /\ get doc "ok" = VBool true).
Proof.
  intros payload pre t code post doc Hpre Ht He Hd evs diagnostics.
  unfold evs. rewrite (runPython_close payload pre t code post Hpre Ht).
  rewrite (close_outcome_truthy payload pre code doc He Hd).
  pose proof (success_condition code doc) as Hc.
  destruct (_ && _).
  - assert (H : code = Some 0 /\ get doc "ok" = VBool true) by (apply Hc; reflexivity).
    split; [| split].
    + intros _. reflexivity.
    + intros Hn. contradiction.
    + split; [intros _; exact H | intros _; eauto].
  - assert (H : ~ (code = Some 0 /\ get doc "ok" = VBool true)).
    { intros H. apply Hc in H. discriminate. }
    split; [| split].
    + intros H'. contradiction.
    + intros _. reflexivity.
    + split; [intros [r Hr]; discriminate | intros H'; contradiction].
Qed.

(** A worker that exits 0 after printing an object with [ok] false and the
    error "boom" is rejected with the message "boom". *)
Lemma runPython_exit_correlation_witness :
  runPython (VArr [])
    [ (10, StdoutData (json_text "{'ok': false, 'error': 'boom'}"));
      (20, Close (Some 0)) ]
  = Some (Rejected
            (VObj [ ("code", VNum (Finite false 0 0));
                    ("error", VStr "boom");
                    ("parsed", VObj [("ok", VBool false); ("error", VStr "boom")]);
                    ("stderr", VStr "") ])).
Proof.
  refine (proj1 (proj2
    (runPython_exit_correlation (VArr [])
       [(10, StdoutData (json_text "{'ok': false, 'error': 'boom'}"))]
       20 (Some 0) []
       (VObj [("ok", VBool false); ("error", VStr "boom")]) _ _ _ _)) _).
  - repeat constructor.
  - reflexivity.
  - vm_compute. reflexivity.
  - reflexivity.
  - intros [_ H]. discriminate H.
Defined.

(** Counterexample to C2 as stated: a worker that exits 0 after printing [0]
    has produced a document, yet the promise is rejected as invalid output,
    with the raw text, and not with the fallback message and the document. *)
Lemma runPython_falsy_document :
  JSON.parse "0" = Some (VNum (Finite false 0 0))
  /\ extractJSON (trim "0") = Ok (VNum (Finite false 0 0))
  /\ runPython (VArr []) [(10, StdoutData "0"); (20, Close (Some 0))]
     = Some (Rejected
               (VObj [ ("code", VNum (Finite false 0 0));
                       ("error", VStr "Invalid JSON output from Python");
                       ("raw", VStr "0");
                       ("stderr", VStr "") ]))
  /\ runPython (VArr []) [(10, StdoutData "0"); (20, Close (Some 0))]
     <> Some (Rejected
                (VObj [ ("code", VNum (Finite false 0 0));
                        ("error", VStr "Python logical error");
                        ("parsed", VNum (Finite false 0 0));
                        ("stderr", VStr "") ])).
Proof.
  repeat split; try (vm_compute; reflexivity).
  vm_compute. discriminate.
Qed.

(** C3. An invocation whose child neither closes nor fails to start until
    after the 120000 ms deadline: [kill] is sent and the promise is rejected
    with the TIMEOUT error, whatever the child wrote before the deadline and
    whatever it does afterwards, its 'close' included. *)
Theorem runPython_timeout :
  forall payload evs,
    Forall (fun te => is_data (snd te) = false -> TIMEOUT_MS < fst te) evs ->
    runPython payload evs
    = Some (Rejected
              (VObj [ ("code", VStr "TIMEOUT");
                      ("error", VStr "Python script timed out after 120s") ]))
    /\ killed (finish payload evs) = true
    /\ TIMEOUT_MS = 120000.
Proof.
  intros payload evs Hall.
  assert (T : timed_out (finish payload evs)).
  { unfold finish.
    destruct (deliver_overdue evs (spawn payload) Hall) as [[Ha Hs] | T].
    - left. split; reflexivity.
    - unfold tick. rewrite Ha, Z.leb_refl.
      apply on_timeout_pending. split; assumption.
    - rewrite tick_final; [assumption | destruct T as (E & _); congruence]. }
  destruct T as (_ & Hs & Hk).
  unfold runPython. rewrite Hs, Hk. repeat split.
Qed.

Lemma runPython_timeout_witness :
  runPython (VArr [])
    [ (10, StdoutData (json_text "{'ok':true}"));
      (120001, Close None) ]
  = Some (Rejected
            (VObj [ ("code", VStr "TIMEOUT");
                    ("error", VStr "Python script timed out after 120s") ])).
Proof.
  apply (runPython_timeout (VArr [])
           [ (10, StdoutData (json_text "{'ok':true}")); (120001, Close None) ]).
  repeat constructor; simpl; discriminate.
Defined.

(** C4. The algorithm of [extractJSON], for every text it is given (the
    'close' handler gives it the trimmed output): a text that parses as a
    whole yields its document; otherwise the text from the first opening
    brace to the last closing brace after it, both included, is parsed and
    its document returned, or null when it does not parse; a text that does
    not parse and has no opening brace followed by a closing one yields null.
    Whenever some opening brace is followed by a closing one, the first and
    the last exist, so the cases leave no text out.  The log line followed by
    an object yields the object. *)
Theorem extractJSON_algorithm :
  (forall text doc, JSON.parse text = Some doc -> extractJSON text = Ok doc)
  /\ (forall text pre mid post,
        JSON.parse text = None ->
        text = (pre ++ "{" ++ mid ++ "}" ++ post)%string ->
        ~ In "{"%char (chars pre) ->
        ~ In "}"%char (chars post) ->
        extractJSON text
        = Ok (match JSON.parse ("{" ++ mid ++ "}") with
              | Some doc => doc
              | None => VNull
              end))
  /\ (forall text,
        JSON.parse text = None ->
        (forall pre mid post, text <> (pre ++ "{" ++ mid ++ "}" ++ post)%string) ->
        extractJSON text = Ok VNull)
  /\ (forall text pre mid post,
        text = (pre ++ "{" ++ mid ++ "}" ++ post)%string ->
        exists pre' mid' post',
          text = (pre' ++ "{" ++ mid' ++ "}" ++ post')%string
          /\ ~ In "{"%char (chars pre')
          /\ ~ In "}"%char (chars post'))
  /\ extractJSON
       (trim ("[warn] loading..." ++ LF
              ++ json_text "{'ok':true,'x':1}" ++ LF))
     = Ok (VObj [("ok", VBool true); ("x", VNum (Finite false 1 0))]).
Proof.
  split; [| split; [| split; [| split]]].
  - intros text doc H. rewrite extractJSON_cases, H. reflexivity.
  - intros text pre mid post Hparse -> Hpre Hpost.
    rewrite extractJSON_cases, Hparse.
    destruct (braces_found pre mid post Hpre Hpost) as [Hguard Hsub].
    cbv zeta. rewrite Hguard, Hsub.
    destruct (JSON.parse ("{" ++ mid ++ "}")); reflexivity.
  - intros text Hparse Hnone.
    rewrite extractJSON_cases, Hparse. cbv zeta.
    destruct (_ && _) eqn:Hguard; [| reflexivity].
    exfalso. destruct (braces_exist text Hguard) as (pre & mid & post & E & _).
    exact (Hnone pre mid post E).
  - intros text pre mid post ->.
    apply braces_exist, brace_pair_guard.
  - vm_compute. reflexivity.
Qed.

Lemma extractJSON_algorithm_witness :
  extractJSON ("[warn] loading..." ++ LF ++ json_text "{'ok':true,'x':1}" ++ LF)
  = Ok (VObj [("ok", VBool true); ("x", VNum (Finite false 1 0))])
  /\ extractJSON (json_text "{'ok':true,'x':1}")
     = Ok (VObj [("ok", VBool true); ("x", VNum (Finite false 1 0))])
  /\ extractJSON "no structured output here" = Ok VNull.
Proof.
  destruct extractJSON_algorithm as (Hwhole & Hbraces & Hnone & _ & _).
  split; [| split].
  - apply (Hbraces _ ("[warn] loading..." ++ LF)%string
             (json_text "'ok':true,'x':1") LF).
    + vm_compute. reflexivity.
    + vm_compute. reflexivity.
    + vm_compute. intuition discriminate.
    + vm_compute. intuition discriminate.
  - apply Hwhole. vm_compute. reflexivity.
  - apply Hnone.
    + vm_compute. reflexivity.
    + intros pre mid post E.
      assert (H : In "{"%char (chars "no structured output here")).
      { rewrite E, chars_app. apply in_or_app. right. left. reflexivity. }
      vm_compute in H. intuition discriminate.
Defined.

(** C5 does not hold of the code.  A batch whose items have the coordinates
    [""] and [true], and [null] and [[]], none of which is a number and each
    of which [parseFloat] turns into NaN, passes the validation: the raw
    values stay in the normalized items, [isNaN] converts them to 0 and 1,
    and the child is spawned with them whatever it then does; when it
    answers well, the request is answered with status 200. *)
Theorem scan_accepts_non_numeric_coordinates :
  forall clock child,
    let e := VObj [("id", VStr "e"); ("lat", VStr ""); ("lon", VBool true)] in
    let f := VObj [("id", VStr "f"); ("lat", VNull); ("lon", VArr [])] in
    let payload := normalizePayload clock (VArr [e; f]) in
    Forall (fun v => finite_number v = false /\ parseFloat v = VNum NaN)
      [get e "lat"; get e "lon"; get f "lat"; get f "lon"]
    /\ map (fun item => (get item "lat", get item "lon")) (as_array payload)
       = [(VStr "", VBool true); (VNull, VArr [])]
    /\ check_items (as_array payload) = Ok tt
    /\ snd (scan clock child (VArr [e; f])) = [payload]
    /\ fst (scan clock
              [(10, StdoutData (json_text "{'ok':true}")); (20, Close (Some 0))]
              (VArr [e; f]))
       = Some {| status := 200;
                 body := VObj [ ("ok", VBool true);
                                ("data", VObj [("ok", VBool true)]) ] |}.
Proof.
  intros clock child e f payload.
  assert (Hcheck : check_items (as_array payload) = Ok tt)
    by (vm_compute; reflexivity).
  assert (Hprep : prepare clock (VArr [e; f]) = Ok payload).
  { unfold prepare. cbv zeta. fold payload.
    change (as_array payload)
      with [normalizeOne (clock 0%nat) e; normalizeOne (clock 1%nat) f] in *.
    rewrite Hcheck. reflexivity. }
  split; [repeat constructor |].
  split; [vm_compute; reflexivity |].
  split; [exact Hcheck |].
  split.
  - unfold scan. rewrite Hprep.
    destruct (runPython payload child) as [[r | err] |]; reflexivity.
  - vm_compute. reflexivity.
Qed.

(** C6. Normalizing an array gives an array of the same length whose
    [i]-th item is the [i]-th input item normalized.  Whenever the
    invocation resolves, the child has only written and then closed with
    code 0 before the deadline, and the response is 200 with, as [data],
    the very document [extractJSON] returned for the trimmed output. *)
Theorem normalize_order_and_forwarding :
  (forall clock items,
     exists batch,
       normalizePayload clock (VArr items) = VArr batch
       /\ List.length batch = List.length items
       /\ forall i x,
            nth_error items i = Some x ->
            nth_error batch i = Some (normalizeOne (clock i) x))
  /\ (forall clock child req_body payload r,
        prepare clock req_body = Ok payload ->
        runPython payload child = Some (Resolved r) ->
        exists pre t post doc,
          child = pre ++ (t, Close (Some 0)) :: post
          /\ streaming pre
          /\ t < TIMEOUT_MS
          /\ extractJSON (trim (output_of pre "")) = Ok doc
          /\ scan clock child req_body
             = (Some {| status := 200;
                        body := VObj [("ok", VBool true); ("data", doc)] |},
                [payload])).
Proof.
  split.
  - intros clock items. exists (map_normalizeOne clock 0 items).
    split; [reflexivity |]. split; [apply map_normalizeOne_length |].
    intros i x H. apply (map_normalizeOne_nth clock items 0 i x H).
  - intros clock child req_body payload r Hprep Hrun.
    destruct (resolved_shape child (spawn payload) r) as (pre & t & code & post & -> & Hpre & Ht).
    { split; reflexivity. }
    { exact Hrun. }
    rewrite (runPython_close payload pre t code post Hpre Ht) in Hrun.
    destruct (extractJSON_returns (trim (output_of pre ""))) as [doc He].
    destruct (truthy doc) eqn:Hd.
    2:{ rewrite (close_outcome_falsy payload pre code doc He Hd) in Hrun.
        discriminate. }
    rewrite (close_outcome_truthy payload pre code doc He Hd) in Hrun.
    destruct (_ && _) eqn:Hc in Hrun; [| discriminate].
    apply success_condition in Hc as [-> Hok].
    injection Hrun as <-.
    exists pre, t, post, doc. repeat split; try assumption.
    unfold scan. rewrite Hprep.
    rewrite (runPython_close payload pre t (Some 0) post Hpre Ht).
    rewrite (close_outcome_truthy payload pre (Some 0) doc He Hd).
    replace (strict_eq (code_value (Some 0)) (VNum (num_of_N 0))
             && strict_eq (get doc "ok") (VBool true)) with true.
    + reflexivity.
    + symmetry. apply success_condition. auto.
Qed.

Lemma normalize_order_and_forwarding_witness :
  exists pre t post doc,
    [ (10, StdoutData (json_text "log line {'ok':true,"));
      (12, StdoutData (json_text "'results':[1]} "));
      (20, Close (Some 0)) ]
    = pre ++ (t, Close (Some 0)) :: post
    /\ streaming pre
    /\ t < TIMEOUT_MS
    /\ extractJSON (trim (output_of pre "")) = Ok doc
    /\ scan (fun _ => 5%N)
         [ (10, StdoutData (json_text "log line {'ok':true,"));
           (12, StdoutData (json_text "'results':[1]} "));
           (20, Close (Some 0)) ]
         (VArr [VObj [("lat", VNum (Finite false 1 0)); ("lon", VNum (Finite false 2 0))]])
       = (Some {| status := 200;
                  body := VObj [("ok", VBool true); ("data", doc)] |},
          [VArr [normalizeOne 5 (VObj [("lat", VNum (Finite false 1 0));
                                       ("lon", VNum (Finite false 2 0))])]]).
Proof.
  apply (proj2 normalize_order_and_forwarding (fun _ => 5%N) _ _ _
           (VObj [ ("parsed",
                    VObj [("ok", VBool true);
                          ("results", VArr [VNum (Finite false 1 0)])]);
                   ("stderr", VStr "") ])).
  - vm_compute. reflexivity.
  - vm_compute. reflexivity.
Defined.

(** C7. When the first thing that happens, before the deadline, is the
    'error' event of a child that could not be created, the promise is
    rejected with that very error object as soon as the event is handled;
    the timer is cleared, its callback never runs, no [kill] is sent, and
    nothing that follows changes this. *)
Theorem runPython_spawn_failure :
  forall payload t err post,
    t < TIMEOUT_MS ->
    let p := finish payload ((t, ErrorEvent err) :: post) in
    settled (deliver [(t, ErrorEvent err)] (spawn payload))
    = Some (Rejected (VObj err))
    /\ runPython payload ((t, ErrorEvent err) :: post) = Some (Rejected (VObj err))
    /\ timeout p = Cleared
    /\ killed p = false.
Proof.
  intros payload t err post Ht p.
  split; [cbn [deliver]; rewrite (tick_early t) by assumption; reflexivity |].
  unfold runPython. fold p. unfold p, finish.
  cbn [deliver]. rewrite (tick_early t) by assumption.
  set (p1 := handle (ErrorEvent err) (spawn payload)).
  assert (Hs : settled p1 = Some (Rejected (VObj err))) by reflexivity.
  assert (Hc : timeout p1 = Cleared) by reflexivity.
  assert (Hk : killed p1 = false) by reflexivity.
  destruct (deliver_final post p1 _ Hs) as (A & B & C); [congruence |].
  rewrite tick_final by congruence.
  rewrite A, B, C, Hc, Hk. auto.
Qed.

Lemma runPython_spawn_failure_witness :
  runPython (VArr [])
    [ (3, ErrorEvent [("message", VStr "spawn python ENOENT"); ("code", VStr "ENOENT")]);
      (4, Close (Some (-2))) ]
  = Some (Rejected (VObj [("message", VStr "spawn python ENOENT"); ("code", VStr "ENOENT")])).
Proof.
  apply (runPython_spawn_failure (VArr []) 3
           [("message", VStr "spawn python ENOENT"); ("code", VStr "ENOENT")]
           [(4, Close (Some (-2)))]).
  reflexivity.
Defined.

(** C8 does not hold of the code.  An item without any radius field whose
    coordinates are the strings "-23.55" and "-46.63", which coerce to finite
    numbers, passes the validation of the endpoint and gets the radius 300,
    but its [lat] and [lon] stay strings, not finite numbers; and an explicit
    null [lat] next to a numeric [latitude] stays null. *)
Theorem normalizeOne_coordinates_not_numbers :
  forall now,
    let x := VObj [("id", VStr "s1"); ("lat", VStr "-23.55"); ("lon", VStr "-46.63")] in
    let y := VObj [("lat", VNull); ("latitude", VNum (Finite true 2355 (-2)));
                   ("lon", VNum (Finite true 4663 (-2)))] in
    parseFloat (get x "lat") = VNum (Finite true 2355 (-2))
    /\ parseFloat (get x "lon") = VNum (Finite true 4663 (-2))
    /\ get (normalizeOne now x) "raio_m" = VNum (Finite false 300 0)
    /\ get (normalizeOne now x) "lat" = VStr "-23.55"
    /\ get (normalizeOne now x) "lon" = VStr "-46.63"
    /\ finite_number (get (normalizeOne now x) "lat") = false
    /\ finite_number (get (normalizeOne now x) "lon") = false
    /\ check_items [normalizeOne now x] = Ok tt
    /\ get (normalizeOne now y) "lat" = VNull
    /\ finite_number (get (normalizeOne now y) "lat") = false
    /\ check_items [normalizeOne now y] = Ok tt.
Proof.
  intros now x y. repeat split; vm_compute; reflexivity.
Qed.

(** C9. A child that only writes and closes before the deadline: the promise
    is rejected with "Invalid JSON output from Python", the exit code, the
    raw output and the diagnostics exactly when what [extractJSON] returns for
    the trimmed output is falsy; the texts [null], [false], [0] and the empty
    string literal are valid JSON and give such a result. *)
Theorem runPython_invalid_output :
  (forall payload pre t code post,
     streaming pre ->
     t < TIMEOUT_MS ->
     exists parsed,
       extractJSON (trim (output_of pre "")) = Ok parsed
       /\ (runPython payload (pre ++ (t, Close code) :: post)
           = Some (Rejected
                     (VObj [ ("code", code_value code);
                             ("error", VStr "Invalid JSON output from Python");
                             ("raw", VStr (output_of pre ""));
                             ("stderr", VStr (diagnostics_of pre "")) ]))
           <-> truthy parsed = false))
  /\ Forall (fun text =>
               exists doc,
                 JSON.parse text = Some doc
                 /\ extractJSON (trim text) = Ok doc
                 /\ truthy doc = false)
       ["null"; "false"; "0"; json_text "''"].
Proof.
  split.
  - intros payload pre t code post Hpre Ht.
    destruct (extractJSON_returns (trim (output_of pre ""))) as [parsed He].
    exists parsed. split; [assumption |].
    rewrite (runPython_close payload pre t code post Hpre Ht).
    destruct (truthy parsed) eqn:Hd.
    + rewrite (close_outcome_truthy payload pre code parsed He Hd).
      rewrite success_fields, logical_error_fields.
      split; [| discriminate].
      destruct (_ && _); intros H; discriminate H.
    + rewrite (close_outcome_falsy payload pre code parsed He Hd).
      split; reflexivity.
  - repeat constructor.
    + exists VNull. vm_compute. auto.
    + exists (VBool false). vm_compute. auto.
    + exists (VNum (Finite false 0 0)). vm_compute. auto.
    + exists (VStr ""). vm_compute. auto.
Qed.

Lemma runPython_invalid_output_witness :
  exists parsed,
    extractJSON (trim (output_of [(5, StdoutData "false"); (6, StderrData "w")] ""))
    = Ok parsed
    /\ (runPython (VArr [])
          ([(5, StdoutData "false"); (6, StderrData "w")]
             ++ (20, Close (Some 0)) :: [])
        = Some (Rejected
                  (VObj [ ("code", code_value (Some 0));
                          ("error", VStr "Invalid JSON output from Python");
                          ("raw", VStr (output_of [(5, StdoutData "false"); (6, StderrData "w")] ""));
                          ("stderr", VStr (diagnostics_of [(5, StdoutData "false"); (6, StderrData "w")] "")) ]))
        <-> truthy parsed = false).
Proof.
  apply (proj1 runPython_invalid_output (VArr [])
           [(5, StdoutData "false"); (6, StderrData "w")] 20 (Some 0) []).
  - repeat constructor.
  - reflexivity.
Defined.

(** C10. [extractJSON] is total and never throws: for every string it
    returns a value, which is the document parsed from the whole text, or the
    document parsed from the text between the first opening and the last
    closing brace, or null. *)
Theorem extractJSON_total :
  forall raw : string,
    exists v : value,
      extractJSON raw = Ok v
      /\ (JSON.parse raw = Some v
          \/ JSON.parse
               (substring raw (indexOf raw "{"%char)
                  (lastIndexOf raw "}"%char + 1)) = Some v
          \/ v = VNull).
Proof.
  intros raw. rewrite extractJSON_cases.
  destruct (JSON.parse raw) as [doc |] eqn:E; [eauto |].
  cbv zeta. destruct (_ && _); [| eauto].
  destruct (JSON.parse (substring _ _ _)) as [doc |] eqn:E'; eauto.
Qed.

(* ================================================================== *)
(** ** Further properties of the code *)
(* ================================================================== *)

Section Objects.

Lemma lookup_none k ps : lookup k ps = None <-> ~ In k (keys ps).
Proof.
  induction ps as [| [k0 v0] r IH]; simpl; [tauto |].
  destruct (String.eqb_spec k k0) as [-> | Hne].
  - split; [discriminate | intros H; exfalso; apply H; left; reflexivity].
  - rewrite IH. split; [intros H [E | E]; [congruence | contradiction] | tauto].
Qed.

Lemma lookup_some k ps : In k (keys ps) -> exists v, lookup k ps = Some v.
Proof.
  intros H. destruct (lookup k ps) as [v |] eqn:E; [eauto |].
  apply lookup_none in E. contradiction.
Qed.

Lemma has_key k acc : existsb (String.eqb k) acc = true <-> In k acc.
Proof.
  rewrite existsb_exists. split.
  - intros (x & Hx & E). apply String.eqb_eq in E. subst. assumption.
  - intros H. exists k. split; [assumption | apply String.eqb_refl].
Qed.

Lemma add_key_old acc k : In k acc -> add_key acc k = acc.
Proof. intros H. unfold add_key. apply has_key in H. rewrite H. reflexivity. Qed.

Lemma add_key_new acc k : ~ In k acc -> add_key acc k = acc ++ [k].
Proof.
  intros H. unfold add_key.
  destruct (existsb (String.eqb k) acc) eqn:E; [| reflexivity].
  apply has_key in E. contradiction.
Qed.

Lemma keys_assign k v ps : keys (assign k v ps) = add_key (keys ps) k.
Proof.
  induction ps as [| [k0 v0] r IH]; [reflexivity |].
  cbn [assign]. destruct (String.eqb_spec k k0) as [-> | Hne].
  - rewrite add_key_old by (left; reflexivity). reflexivity.
  - cbn [keys map fst]. fold (keys r). fold (keys (assign k v r)). rewrite IH.
    destruct (in_dec string_dec k (keys r)) as [Hin | Hout].
    + rewrite !add_key_old; [reflexivity | right; assumption | assumption].
    + rewrite !add_key_new; [reflexivity | | assumption].
      intros [E | E]; [congruence | contradiction].
Qed.

Lemma keys_assign_all src : forall dst,
  keys (assign_all src dst) = fold_left add_key (keys src) (keys dst).
Proof.
  unfold assign_all.
  induction src as [| [k v] r IH]; intros dst; simpl; [reflexivity |].
  rewrite IH, keys_assign. reflexivity.
Qed.

Lemma add_key_in acc k k' : In k' (add_key acc k) <-> In k' acc \/ k' = k.
Proof.
  destruct (in_dec string_dec k acc) as [Hin | Hout].
  - rewrite add_key_old by assumption.
    split; [tauto | intros [H | ->]; assumption].
  - rewrite add_key_new by assumption. rewrite in_app_iff. simpl.
    split; [intros [H | [E | []]]; auto | intros [H | ->]; auto].
Qed.

Lemma add_key_NoDup acc k : NoDup acc -> NoDup (add_key acc k).
Proof.
  intros H. destruct (in_dec string_dec k acc) as [Hin | Hout].
  - rewrite add_key_old; assumption.
  - rewrite add_key_new by assumption.
    apply NoDup_app; [assumption | repeat constructor; intros [] | ].
    intros x Hx [E | []]. subst. contradiction.
Qed.

Lemma fold_add_key_in l : forall acc k,
  In k (fold_left add_key l acc) <-> In k acc \/ In k l.
Proof.
  induction l as [| a r IH]; intros acc k; simpl; [tauto |].
  rewrite IH, add_key_in. split; intros H; intuition auto.
Qed.

Lemma fold_add_key_NoDup l : forall acc,
  NoDup acc -> NoDup (fold_left add_key l acc).
Proof.
  induction l as [| a r IH]; intros acc H; simpl; [assumption |].
  apply IH, add_key_NoDup, H.
Qed.

Lemma fold_add_key_prefix l : forall acc,
  exists rest, fold_left add_key l acc = acc ++ rest.
Proof.
  induction l as [| a r IH]; intros acc; simpl; [exists []; symmetry; apply app_nil_r |].
  destruct (IH (add_key acc a)) as [rest ->].
  destruct (in_dec string_dec a acc) as [Hin | Hout].
  - rewrite add_key_old by assumption. eauto.
  - rewrite add_key_new by assumption.
    exists ([a] ++ rest). symmetry. apply app_assoc.
Qed.

(** Names that are all there already add nothing. *)
Lemma fold_add_key_known l : forall acc,
  (forall k, In k l -> In k acc) -> fold_left add_key l acc = acc.
Proof.
  induction l as [| a r IH]; intros acc H; simpl; [reflexivity |].
  assert (E : add_key acc a = acc)
    by (apply add_key_old, H; left; reflexivity).
  rewrite E. apply IH. intros k Hk. apply H. right. assumption.
Qed.

(** New names are added in their order. *)
Lemma fold_add_key_fresh l : forall acc,
  NoDup (acc ++ l) -> fold_left add_key l acc = acc ++ l.
Proof.
  induction l as [| a r IH]; intros acc H; simpl; [symmetry; apply app_nil_r |].
  assert (E : add_key acc a = acc ++ [a]).
  { apply add_key_new. intros Hin.
    apply NoDup_remove_2 in H. apply H, in_or_app. left. assumption. }
  rewrite E, IH; rewrite <- app_assoc; [reflexivity | exact H].
Qed.

(** Two objects with the same names in the same order and the same value
    under each name are the same object. *)
Lemma props_ext a : forall b,
  NoDup (keys a) -> keys a = keys b ->
  (forall k, lookup k a = lookup k b) -> a = b.
Proof.
  induction a as [| [k v] r IH]; intros [| [k' v'] r'] Hnd Hk Hl;
    try discriminate; [reflexivity |].
  simpl in Hk. injection Hk as <- Hk.
  inversion Hnd as [| x l Hnotin Hnd']; subst.
  pose proof (Hl k) as E. simpl in E. rewrite String.eqb_refl in E.
  injection E as <-. f_equal. apply IH; [assumption | assumption |].
  intros k0. specialize (Hl k0). simpl in Hl.
  destruct (String.eqb_spec k0 k) as [E | Hne]; [clear Hl; subst k0 | assumption].
  assert (L : lookup k r = None) by (apply lookup_none; assumption).
  assert (L' : lookup k r' = None).
  { apply lookup_none. unfold keys in *. rewrite <- Hk. assumption. }
  congruence.
Qed.

(** A spread of an object over fields it starts with gives the object. *)
Lemma assign_all_over_prefix ys dst rest :
  NoDup (keys ys) -> keys ys = keys dst ++ rest ->
  assign_all ys dst = ys.
Proof.
  intros Hnd Hk.
  assert (Ekeys : keys (assign_all ys dst) = keys ys).
  { rewrite keys_assign_all, Hk, fold_left_app.
    rewrite (fold_add_key_known (keys dst) (keys dst)) by auto.
    apply fold_add_key_fresh. rewrite <- Hk. assumption. }
  apply props_ext.
  - rewrite Ekeys. assumption.
  - assumption.
  - intros k. destruct (lookup k ys) as [v |] eqn:E.
    + apply lookup_assign_all_present; assumption.
    + rewrite lookup_assign_all_absent by assumption.
      apply lookup_none. apply lookup_none in E.
      intros H. apply E. rewrite Hk. apply in_or_app. left. assumption.
Qed.

End Objects.

Section NormalizeOne.

Variable now : N.

(** On an array or object [normalizeOne] builds an object from the
    canonical fields and the spread. *)
Lemma normalizeOne_is_object x :
  is_object x = true ->
  normalizeOne now x = VObj (assign_all (own_props x) (canonical now x)).
Proof. destruct x; try discriminate; reflexivity. Qed.

Lemma normalizeOne_not_object x : is_object x = false -> normalizeOne now x = x.
Proof.
  destruct x as [| | b | n | s | |]; try discriminate; try reflexivity.
  - destruct b; reflexivity.
  - intros _. unfold normalizeOne. destruct (truthy (VNum n)); reflexivity.
  - intros _. unfold normalizeOne. destruct (truthy (VStr s)); reflexivity.
Qed.

Lemma keys_canonical x : keys (canonical now x) = CANONICAL.
Proof. reflexivity. Qed.

Lemma NoDup_CANONICAL : NoDup CANONICAL.
Proof. repeat constructor; simpl; intuition discriminate. Qed.

Lemma normalizeOne_keys x :
  is_object x = true ->
  exists rest,
    keys (own_props (normalizeOne now x)) = CANONICAL ++ rest
    /\ NoDup (keys (own_props (normalizeOne now x))).
Proof.
  intros H. rewrite (normalizeOne_is_object x H). cbn [own_props].
  rewrite keys_assign_all, keys_canonical.
  destruct (fold_add_key_prefix (keys (own_props x)) CANONICAL) as [rest E].
  exists rest. split; [exact E |].
  apply fold_add_key_NoDup, NoDup_CANONICAL.
Qed.

End NormalizeOne.

(** X1. On an item whose converted fields raise nothing in [parseFloat],
    [normalizeOne] returns anything that is not an array or an object as it
    is, and from an array or object it builds an object whose fields are
    exactly [id], [lat], [lon], [raio_m] and the fields of the input, no name
    twice: nothing is dropped and nothing else is added. *)
Theorem normalizeOne_fields :
  forall now x,
    normalizable x = true ->
    (is_object x = false -> normalizeOne now x = x)
    /\ (is_object x = true ->
        exists ps,
          normalizeOne now x = VObj ps
          /\ NoDup (keys ps)
          /\ forall k, In k (keys ps)
                       <-> In k CANONICAL \/ In k (keys (own_props x))).
Proof.
  intros now x _. split; [apply normalizeOne_not_object |].
  intros H. destruct (normalizeOne_keys now x H) as (rest & Hk & Hnd).
  rewrite (normalizeOne_is_object now x H) in *. cbn [own_props] in *.
  eexists. repeat split; try eassumption.
  - rewrite keys_assign_all, keys_canonical. apply fold_add_key_in.
  - rewrite keys_assign_all, keys_canonical. apply fold_add_key_in.
Qed.

Lemma normalizeOne_fields_witness :
  exists ps,
    normalizeOne 1700 (VArr [VStr "a"]) = VObj ps
    /\ NoDup (keys ps)
    /\ forall k, In k (keys ps)
                 <-> In k CANONICAL \/ In k (keys (own_props (VArr [VStr "a"]))).
Proof.
  apply (proj2 (normalizeOne_fields 1700 (VArr [VStr "a"]) eq_refl)).
  reflexivity.
Defined.

(** X2. Normalizing twice is normalizing once, whatever the clock: an item
    that went through [normalizeOne] goes through it again unchanged. *)
Theorem normalizeOne_idempotent :
  forall now now' x,
    normalizeOne now' (normalizeOne now x) = normalizeOne now x.
Proof.
  intros now now' x.
  destruct (is_object x) eqn:H.
  2:{ rewrite (normalizeOne_not_object now x H).
      apply normalizeOne_not_object. assumption. }
  destruct (normalizeOne_keys now x H) as (rest & Hk & Hnd).
  rewrite (normalizeOne_is_object now x H) in *. cbn [own_props] in *.
  rewrite normalizeOne_is_object by reflexivity. cbn [own_props].
  f_equal. apply (assign_all_over_prefix _ _ rest); assumption.
Qed.

(** X3. When [normalizeOne] raises nothing on an item, every field of the
    input keeps in the normalized item the value the input gave it, the
    canonical fields included.  (An object of the program has no name twice;
    its model must not either.) *)
Theorem normalizeOne_keeps_input_fields :
  forall now x k v,
    is_object x = true ->
    normalizable x = true ->
    NoDup (keys (own_props x)) ->
    lookup k (own_props x) = Some v ->
    get (normalizeOne now x) k = v.
Proof.
  intros now x k v H _ Hnd Hl.
  rewrite (normalizeOne_is_object now x H). unfold get. cbn [own_props].
  rewrite (lookup_assign_all_present k v) by assumption. reflexivity.
Qed.

Lemma normalizeOne_keeps_input_fields_witness :
  get (normalizeOne 1700
         (VObj [("id", VNull); ("lat", VBool true); ("note", VStr "x")])) "id"
  = VNull.
Proof.
  apply normalizeOne_keeps_input_fields.
  - reflexivity.
  - reflexivity.
  - repeat constructor; simpl; intuition discriminate.
  - reflexivity.
Defined.

(** X4. When [normalizeOne] raises nothing on an item, a canonical field
    that the input does not have is filled in: [lat] from [latitude], [lon]
    from [lng] and else [longitude], [raio_m] from [raio] and else
    [radius_m] and else 300, each through [parseFloat], and [id] from
    [sub_id] and else [subId] and else "temp_" followed by the clock
    reading; null counts as missing among the aliases. *)
Theorem normalizeOne_fills_missing_fields :
  forall now x,
    is_object x = true ->
    normalizable x = true ->
    (lookup "lat" (own_props x) = None ->
     get (normalizeOne now x) "lat" = parseFloat (get x "latitude"))
    /\ (lookup "lon" (own_props x) = None ->
        get (normalizeOne now x) "lon"
        = parseFloat (if nullish (get x "lng") then get x "longitude"
                      else get x "lng"))
    /\ (lookup "raio_m" (own_props x) = None ->
        get (normalizeOne now x) "raio_m"
        = parseFloat (if nullish (get x "raio")
                      then (if nullish (get x "radius_m")
                            then VNum (Finite false 300 0)
                            else get x "radius_m")
                      else get x "raio"))
    /\ (lookup "id" (own_props x) = None ->
        get (normalizeOne now x) "id"
        = if nullish (get x "sub_id")
          then (if nullish (get x "subId")
                then VStr ("temp_" ++ Number_toString (Finite false now 0))
                else get x "subId")
          else get x "sub_id").
Proof.
  intros now x H _. rewrite (normalizeOne_is_object now x H).
  assert (F : forall k, lookup k (own_props x) = None ->
                get (VObj (assign_all (own_props x) (canonical now x))) k
                = match lookup k (canonical now x) with
                  | Some v => v
                  | None => VUndef
                  end).
  { intros k Hk. unfold get. cbn [own_props].
    rewrite lookup_assign_all_absent by assumption. reflexivity. }
  repeat split; intros Hk; rewrite (F _ Hk);
    cbn [canonical lookup String.eqb Ascii.eqb Bool.eqb];
    unfold get at 1; rewrite Hk; unfold coalesce; cbn [nullish];
    [reflexivity | | | ].
  - destruct (nullish (get x "lng")); reflexivity.
  - destruct (nullish (get x "raio")) eqn:E1;
      [destruct (nullish (get x "radius_m")) eqn:E2 |];
      rewrite ?E1, ?E2; reflexivity.
  - destruct (nullish (get x "sub_id")) eqn:E1;
      [destruct (nullish (get x "subId")) eqn:E2 |];
      rewrite ?E1, ?E2; reflexivity.
Qed.

Lemma normalizeOne_fills_missing_fields_witness :
  get (normalizeOne 1700
         (VObj [("latitude", VStr "1.5"); ("longitude", VNum (Finite false 2 0));
                ("lng", VNull)])) "lon"
  = VNum (Finite false 2 0).
Proof.
  refine (eq_trans
    (proj1 (proj2 (normalizeOne_fills_missing_fields 1700
       (VObj [("latitude", VStr "1.5"); ("longitude", VNum (Finite false 2 0));
              ("lng", VNull)]) _ _)) _) _).
  - reflexivity.
  - reflexivity.
  - reflexivity.
  - vm_compute. reflexivity.
Defined.

Section Settlement.

Variable payload : value.

Lemma reachable_spawn : reachable (spawn payload).
Proof. left. repeat split. Qed.

Lemma reachable_tick t p : reachable p -> reachable (tick t p).
Proof.
  intros [[[Ha Hs] Hk] | [(Hc & Hs & Hk) | T]].
  - unfold tick. rewrite Ha. destruct (TIMEOUT_MS <=? t).
    + right. right. apply on_timeout_pending. split; assumption.
    + left. repeat split; assumption.
  - rewrite tick_final by congruence. right. left. auto.
  - rewrite tick_final by (destruct T as (E & _); congruence). right. right.
    assumption.
Qed.

Lemma reachable_handle e p : reachable p -> reachable (handle e p).
Proof.
  intros [[[Ha Hs] Hk] | [(Hc & Hs & Hk) | T]].
  - destruct e as [d | d | err | code].
    + left. repeat split; assumption.
    + left. repeat split; assumption.
    + right. left. cbn [handle]. unfold on_error, reject, settle. simpl.
      rewrite Hs, Ha. simpl. repeat split; [discriminate | assumption].
    + right. left. cbn [handle]. unfold on_close.
      destruct (correlate _ _) as [[? | ?] | ?]; unfold resolve, reject, settle;
        simpl; rewrite Hs, Ha; simpl; repeat split;
        solve [discriminate | assumption].
  - right. left.
    destruct (settled p) as [o |] eqn:E; [| congruence].
    destruct (step_final TIMEOUT_MS e p o E) as (A & B & C); [congruence |].
    rewrite tick_final in A, B, C by congruence.
    rewrite A, B, C. repeat split; [assumption | discriminate | assumption].
  - right. right. apply handle_timed_out. assumption.
Qed.

Lemma reachable_deliver evs : forall p, reachable p -> reachable (deliver evs p).
Proof.
  induction evs as [| [t e] r IH]; intros p H; [exact H |].
  cbn [deliver]. apply IH, reachable_handle, reachable_tick, H.
Qed.

Lemma reachable_finish evs : reachable (finish payload evs).
Proof. apply reachable_tick, reachable_deliver, reachable_spawn. Qed.

(** The events up to the first one that is not a write made in time. *)
Lemma first_decisive (evs : list (Z * event)) :
  streaming evs
  \/ exists pre t e post,
       evs = pre ++ (t, e) :: post /\ streaming pre
       /\ (TIMEOUT_MS <= t \/ is_data e = false).
Proof.
  induction evs as [| [t e] r IH]; [left; constructor |].
  destruct (Z.ltb_spec t TIMEOUT_MS) as [Ht | Ht].
  - destruct (is_data e) eqn:Hd.
    + destruct IH as [Hs | (pre & t' & e' & post & -> & Hs & Hx)].
      * left. constructor; [split; assumption | assumption].
      * right. exists ((t, e) :: pre), t', e', post.
        repeat split; [constructor; [split; assumption | assumption] | assumption].
    + right. exists [], t, e, r. repeat split; [constructor | right; assumption].
  - right. exists [], t, e, r. repeat split; [constructor | left; assumption].
Qed.

Lemma pending_after_streaming pre :
  streaming pre -> pending (deliver pre (spawn payload)).
Proof.
  intros H. rewrite (deliver_streaming pre H) by reflexivity. split; reflexivity.
Qed.

(** Once the timer callback has run, the rest of the run changes nothing. *)
Lemma finish_timed_out pre post :
  timed_out (deliver pre (spawn payload)) ->
  runPython payload (pre ++ post) = Some (Rejected TIMEOUT_error).
Proof.
  intros (Ht & Hs & _). unfold runPython, finish. rewrite deliver_app.
  destruct (deliver_final post _ _ Hs) as (A & B & _); [congruence |].
  rewrite tick_final by congruence. exact A.
Qed.

Lemma runPython_streaming evs :
  streaming evs -> runPython payload evs = Some (Rejected TIMEOUT_error).
Proof.
  intros H. unfold runPython, finish.
  destruct (pending_after_streaming evs H) as [Ha Hs].
  unfold tick. rewrite Ha, Z.leb_refl.
  apply (on_timeout_pending _ (conj Ha Hs)).
Qed.

Lemma runPython_late pre t e post :
  streaming pre -> TIMEOUT_MS <= t ->
  runPython payload (pre ++ (t, e) :: post) = Some (Rejected TIMEOUT_error).
Proof.
  intros Hpre Ht.
  change (pre ++ (t, e) :: post) with (pre ++ [(t, e)] ++ post).
  rewrite app_assoc. apply finish_timed_out.
  rewrite deliver_app. cbn [deliver].
  destruct (pending_after_streaming pre Hpre) as [Ha Hs].
  apply handle_timed_out. unfold tick. rewrite Ha.
  destruct (Z.leb_spec TIMEOUT_MS t); [| lia].
  apply on_timeout_pending. split; assumption.
Qed.

Lemma runPython_error pre t err post :
  streaming pre -> t < TIMEOUT_MS ->
  runPython payload (pre ++ (t, ErrorEvent err) :: post)
  = Some (Rejected (VObj err)).
Proof.
  intros Hpre Ht. unfold runPython, finish. rewrite deliver_app.
  cbn [deliver]. rewrite (tick_early t) by assumption.
  destruct (pending_after_streaming pre Hpre) as [Ha Hs].
  set (p := deliver pre (spawn payload)) in *.
  assert (E : settled (handle (ErrorEvent err) p) = Some (Rejected (VObj err))).
  { cbn [handle]. unfold on_error, reject. apply settle_fresh. assumption. }
  assert (F : timeout (handle (ErrorEvent err) p) <> Armed).
  { cbn [handle]. unfold on_error, reject, settle. simpl. rewrite Hs, Ha.
    simpl. congruence. }
  destruct (deliver_final post _ _ E F) as (A & B & _).
  rewrite tick_final by congruence. exact A.
Qed.

(** The body of the [try] in the 'close' handler never throws. *)
Lemma correlate_returns code p : exists o, correlate code p = Ok o.
Proof.
  destruct (extractJSON_returns (trim (stdout p))) as [parsed He].
  destruct (truthy parsed) eqn:Hd.
  - rewrite (correlate_truthy code p parsed He Hd). eauto.
  - rewrite (correlate_falsy code p parsed He Hd). eauto.
Qed.

End Settlement.



(** X6. A promise settles once: as soon as some of the events have settled
    the promise, nothing that follows changes its outcome. *)
Theorem runPython_first_settlement_wins :
  forall payload evs later o,
    settled (deliver evs (spawn payload)) = Some o ->
    runPython payload (evs ++ later) = Some o.
Proof.
  intros payload evs later o Hs.
  assert (Ht : timeout (deliver evs (spawn payload)) <> Armed).
  { destruct (reachable_deliver evs _ (reachable_spawn payload))
      as [[[_ Hn] _] | [(Hc & _) | (Hf & _)]]; congruence. }
  unfold runPython, finish. rewrite deliver_app.
  destruct (deliver_final later _ _ Hs Ht) as (A & B & _).
  rewrite tick_final by congruence. exact A.
Qed.

Lemma runPython_first_settlement_wins_witness :
  runPython (VArr [])
    ([ (10, StdoutData (json_text "{'ok':true}")); (20, Close (Some 0)) ]
       ++ [ (30, StdoutData "late"); (40, ErrorEvent []); (50, Close (Some 1)) ])
  = Some (Resolved (VObj [ ("parsed", VObj [("ok", VBool true)]);
                           ("stderr", VStr "") ])).
Proof.
  apply runPython_first_settlement_wins.
  vm_compute. reflexivity.
Defined.

(** X7. [kill] is sent exactly when the timer callback runs, and then the
    promise is rejected with the TIMEOUT error.  A child that closes or
    fails before the deadline is never sent [kill], whatever follows. *)
Theorem runPython_kills_only_on_timeout :
  (forall payload evs,
     let p := finish payload evs in
     (killed p = true <-> timeout p = Fired)
     /\ (killed p = true ->
         runPython payload evs = Some (Rejected TIMEOUT_error)))
  /\ (forall payload pre t e post,
        streaming pre -> t < TIMEOUT_MS -> is_data e = false ->
        killed (finish payload (pre ++ (t, e) :: post)) = false).
Proof.
  split.
  - intros payload evs. cbv zeta. unfold runPython.
    destruct (reachable_finish payload evs)
      as [[[Ha Hs] Hk] | [(Hc & Hs & Hk) | (Hf & Hs & Hk)]].
    + rewrite Hk, Ha. repeat split; discriminate.
    + rewrite Hk, Hc. repeat split; discriminate.
    + rewrite Hk, Hf, Hs. repeat split; reflexivity.
  - intros payload pre t e post Hpre Ht He.
    destruct e as [d | d | err | code]; try discriminate.
    + unfold finish. rewrite deliver_app. cbn [deliver].
      rewrite (tick_early t) by assumption.
      destruct (pending_after_streaming payload pre Hpre) as [Ha Hs].
      assert (Hk : killed (deliver pre (spawn payload)) = false).
      { rewrite (deliver_streaming pre Hpre) by reflexivity. reflexivity. }
      set (p := deliver pre (spawn payload)) in *.
      assert (E : settled (handle (ErrorEvent err) p) = Some (Rejected (VObj err))).
      { cbn [handle]. unfold on_error, reject. apply settle_fresh. assumption. }
      assert (F : timeout (handle (ErrorEvent err) p) <> Armed).
      { cbn [handle]. unfold on_error, reject, settle. simpl. rewrite Hs, Ha.
        simpl. congruence. }
      assert (K : killed (handle (ErrorEvent err) p) = false).
      { cbn [handle]. unfold on_error, reject, settle. simpl. rewrite Hs.
        simpl. assumption. }
      destruct (deliver_final post _ _ E F) as (_ & B & C).
      rewrite tick_final by congruence. congruence.
    + apply (finish_close payload pre t code post Hpre Ht).
Qed.

Lemma runPython_kills_only_on_timeout_witness :
  killed (finish (VArr [])
            ([(10, StdoutData "partial")]
               ++ (119999, Close None) :: [(130000, StderrData "x")]))
  = false.
Proof.
  apply (proj2 runPython_kills_only_on_timeout).
  - repeat constructor.
  - reflexivity.
  - reflexivity.
Defined.

(** X8. Whenever the promise resolves, the child has only written and then
    closed with code 0 before the deadline, and the value is an object with
    the two fields [parsed] and [stderr]: [stderr] is all that the child
    wrote to its diagnostics before the close, and [parsed] is what
    [extractJSON] finds in the trimmed output, an array or object whose [ok]
    is exactly [true]. *)
Theorem runPython_resolves_with_ok_document :
  forall payload evs r,
    runPython payload evs = Some (Resolved r) ->
    exists pre t post doc,
      evs = pre ++ (t, Close (Some 0)) :: post
      /\ streaming pre
      /\ t < TIMEOUT_MS
      /\ extractJSON (trim (output_of pre "")) = Ok doc
      /\ r = VObj [("parsed", doc); ("stderr", VStr (diagnostics_of pre ""))]
      /\ is_object doc = true
      /\ get doc "ok" = VBool true.
Proof.
  intros payload evs r Hrun.
  destruct (resolved_shape evs (spawn payload) r)
    as (pre & t & code & post & -> & Hpre & Ht);
    [split; reflexivity | exact Hrun |].
  rewrite (runPython_close payload pre t code post Hpre Ht) in Hrun.
  destruct (extractJSON_returns (trim (output_of pre ""))) as [doc He].
  destruct (truthy doc) eqn:Hd.
  2:{ rewrite (close_outcome_falsy payload pre code doc He Hd) in Hrun.
      discriminate. }
  rewrite (close_outcome_truthy payload pre code doc He Hd) in Hrun.
  destruct (_ && _) eqn:Hc in Hrun; [| discriminate].
  apply success_condition in Hc as [-> Hok].
  injection Hrun as <-.
  exists pre, t, post, doc. repeat split; try assumption.
  destruct doc; try reflexivity; discriminate Hok.
Qed.

Lemma runPython_resolves_with_ok_document_witness :
  exists pre t post doc,
    [ (10, StdoutData (json_text "{'ok':true}")); (11, StderrData "w");
      (20, Close (Some 0)) ]
    = pre ++ (t, Close (Some 0)) :: post
    /\ streaming pre
    /\ t < TIMEOUT_MS
    /\ extractJSON (trim (output_of pre "")) = Ok doc
    /\ VObj [("parsed", VObj [("ok", VBool true)]); ("stderr", VStr "w")]
       = VObj [("parsed", doc); ("stderr", VStr (diagnostics_of pre ""))]
    /\ is_object doc = true
    /\ get doc "ok" = VBool true.
Proof.
  apply (runPython_resolves_with_ok_document (VArr [])
           [ (10, StdoutData (json_text "{'ok':true}")); (11, StderrData "w");
             (20, Close (Some 0)) ]).
  vm_compute. reflexivity.
Defined.

(** X9. The outcome does not depend on how the child's output reaches the
    handlers: two children that close with the same code before the
    deadline, after writes that add up to the same output and the same
    diagnostics, settle the promise alike. *)
Theorem runPython_chunking_irrelevant :
  forall payload pre pre' t t' code post post',
    streaming pre -> streaming pre' ->
    t < TIMEOUT_MS -> t' < TIMEOUT_MS ->
    output_of pre "" = output_of pre' "" ->
    diagnostics_of pre "" = diagnostics_of pre' "" ->
    runPython payload (pre ++ (t, Close code) :: post)
    = runPython payload (pre' ++ (t', Close code) :: post').
Proof.
  intros payload pre pre' t t' code post post' Hpre Hpre' Ht Ht' Ho Hd.
  rewrite (runPython_close payload pre t code post Hpre Ht).
  rewrite (runPython_close payload pre' t' code post' Hpre' Ht').
  unfold at_close. rewrite Ho, Hd. reflexivity.
Qed.

Lemma runPython_chunking_irrelevant_witness :
  runPython (VArr [])
    ([ (1, StdoutData (json_text "{'ok':")); (2, StderrData "log");
       (3, StdoutData "true}") ] ++ (9, Close (Some 0)) :: [])
  = runPython (VArr [])
      ([ (5, StderrData "l"); (6, StdoutData (json_text "{'ok':true}"));
         (7, StderrData "og") ] ++ (8, Close (Some 0)) :: [(9, StdoutData "x")]).
Proof.
  apply runPython_chunking_irrelevant;
    try (repeat constructor); reflexivity.
Defined.

(** X10. The 'close' handler never reaches its [catch]: the body of its
    [try] always comes to a [resolve] or a [reject] of its own, so the
    promise is settled with that outcome unless it was settled before. *)
Theorem on_close_never_throws :
  forall code p,
    exists o,
      correlate (code_value code) (clearTimeout p) = Ok o
      /\ on_close code p = settle o (clearTimeout p).
Proof.
  intros code p.
  destruct (correlate_returns (code_value code) (clearTimeout p)) as [o Ho].
  exists o. split; [assumption |].
  unfold on_close. rewrite Ho. destruct o; reflexivity.
Qed.

Section Handler.

Variable clock : nat -> N.

Lemma check_items_passes arr : Forall passes arr -> check_items arr = Ok tt.
Proof.
  induction 1 as [| item l (Hn & Hlat & Hlon) _ IH]; [reflexivity |].
  cbn [check_items].
  assert (Hm : forall k, member item k = Ok (get item k))
    by (intros k; destruct item; try discriminate; reflexivity).
  rewrite !Hm. cbn [bind]. rewrite Hlat. cbn [bind]. rewrite Hlon.
  cbn [bind]. exact IH.
Qed.

Lemma check_items_verdict arr :
  check_items arr = Ok tt \/ exists err, check_items arr = Throw err.
Proof. destruct (check_items arr) as [[] | err]; eauto. Qed.

Lemma check_items_passed arr : check_items arr = Ok tt -> Forall passes arr.
Proof.
  induction arr as [| item r IH]; intros H; [constructor |].
  cbn [check_items] in H.
  destruct (nullish item) eqn:Hn; [destruct item; discriminate |].
  assert (Hm : forall k, member item k = Ok (get item k))
    by (intros k; destruct item; try discriminate; reflexivity).
  rewrite !Hm in H. cbn [bind] in H.
  destruct (isNaN (get item "lat")) eqn:Hlat; cbn [bind] in H; [discriminate |].
  destruct (isNaN (get item "lon")) eqn:Hlon; cbn [bind] in H; [discriminate |].
  constructor; [repeat split; assumption | apply IH, H].
Qed.

(** The validation lets a payload through exactly when its batch is not
    empty and every item passes; the payload is then the normalized body. *)
Lemma prepare_verdict req_body :
  let payload := normalizePayload clock req_body in
  (as_array payload <> [] /\ Forall passes (as_array payload)
   -> prepare clock req_body = Ok payload)
  /\ (~ (as_array payload <> [] /\ Forall passes (as_array payload))
      -> exists err, prepare clock req_body = Throw err).
Proof.
  cbv zeta. unfold prepare. cbv zeta.
  set (arr := as_array (normalizePayload clock req_body)).
  destruct arr as [| item r] eqn:E.
  - split; [intros [H _]; congruence | intros _; simpl; eauto].
  - replace (Z.of_nat (List.length (item :: r)) =? 0) with false
      by (symmetry; apply Z.eqb_neq; simpl; lia).
    split.
    + intros [_ H]. rewrite (check_items_passes _ H). reflexivity.
    + intros H. destruct (check_items_verdict (item :: r)) as [Hok | [err Herr]].
      * exfalso. apply H. split; [discriminate | apply check_items_passed, Hok].
      * rewrite Herr. simpl. eauto.
Qed.

(** The body of the [try] in the 'close' handler reads the two buffers and
    nothing else of the invocation. *)
Lemma runPython_payload payload payload' evs :
  runPython payload evs = runPython payload' evs.
Proof.
  destruct (first_decisive evs) as [Hs | (pre & t & e & post & -> & Hs & Hx)].
  - rewrite !runPython_streaming by assumption. reflexivity.
  - destruct (Z.ltb_spec t TIMEOUT_MS) as [Ht | Ht].
    2:{ rewrite !runPython_late by assumption. reflexivity. }
    destruct Hx as [Hx | Hx]; [lia |].
    destruct e as [d | d | err | code]; try discriminate.
    + rewrite !runPython_error by assumption. reflexivity.
    + rewrite !runPython_close by assumption. reflexivity.
Qed.

Lemma runPython_overdue payload evs :
  overdue evs -> runPython payload evs = Some (Rejected TIMEOUT_error).
Proof.
  intros H. unfold runPython, finish.
  destruct (deliver_overdue evs (spawn payload) H) as [[Ha Hs] | T].
  - left. split; reflexivity.
  - unfold tick. rewrite Ha, Z.leb_refl.
    apply (on_timeout_pending _ (conj Ha Hs)).
  - rewrite tick_final; [apply T | destruct T as (E & _); congruence].
Qed.

Lemma failure_error_truthy err :
  truthy (get (body (failure err)) "error") = true.
Proof.
  unfold failure, object. cbn. unfold or_else.
  destruct (truthy (get err "error")) eqn:E; [exact E | reflexivity].
Qed.

End Handler.

(** X11. For a body on whose items neither [normalizeOne] nor the [isNaN]
    of the validation raises a TypeError, the handler spawns one child, and
    gives it the normalized body, exactly when the batch is not empty and
    every item of it is not null and has a [lat] and a [lon] that [isNaN]
    accepts; otherwise it spawns none.  What the child then does has no part
    in this. *)
Theorem scan_spawns_iff_valid :
  forall clock child req_body,
    let payload := normalizePayload clock req_body in
    Forall (fun x => normalizable x = true) (as_array req_body) ->
    Forall (fun item => checkable item = true) (as_array payload) ->
    (as_array payload <> [] /\ Forall passes (as_array payload)
     -> snd (scan clock child req_body) = [payload])
    /\ (~ (as_array payload <> [] /\ Forall passes (as_array payload))
        -> snd (scan clock child req_body) = []).
Proof.
  intros clock child req_body payload _ _.
  destruct (prepare_verdict clock req_body) as [Hok Hbad]. fold payload in Hok, Hbad.
  split; intros H.
  - unfold scan. rewrite (Hok H).
    destruct (runPython payload child) as [[r | e] |]; reflexivity.
  - destruct (Hbad H) as [err Herr]. unfold scan. rewrite Herr. reflexivity.
Qed.

Lemma scan_spawns_iff_valid_witness :
  snd (scan (fun _ => 7%N) []
         (VObj [("latitude", VStr "1.5"); ("lng", VNum (Finite false 2 0))]))
  = [ normalizePayload (fun _ => 7%N)
        (VObj [("latitude", VStr "1.5"); ("lng", VNum (Finite false 2 0))]) ].
Proof.
  refine (proj1 (scan_spawns_iff_valid (fun _ => 7%N) []
                   (VObj [("latitude", VStr "1.5"); ("lng", VNum (Finite false 2 0))])
                   _ _) _).
  - repeat constructor.
  - repeat constructor.
  - split; [discriminate |].
    repeat constructor; vm_compute; reflexivity.
Defined.

(** X12. An answer of the handler has one of two shapes.  It has status 200,
    [ok] true and no [error] only when the batch passed the validation and
    the invocation resolved, and then [data] is the document the invocation
    resolved with.  Otherwise it has status 500, [ok] false, a truthy
    [error] and no [data]. *)
Theorem scan_response_shapes :
  forall clock child req_body r,
    fst (scan clock child req_body) = Some r ->
    (status r = 200
     /\ get (body r) "ok" = VBool true
     /\ get (body r) "error" = VUndef
     /\ exists payload v,
          prepare clock req_body = Ok payload
          /\ runPython payload child = Some (Resolved v)
          /\ get (body r) "data" = get v "parsed")
    \/ (status r = 500
        /\ get (body r) "ok" = VBool false
        /\ truthy (get (body r) "error") = true
        /\ get (body r) "data" = VUndef).
Proof.
  intros clock child req_body r. unfold scan.
  destruct (prepare clock req_body) as [payload | err].
  - destruct (runPython payload child) as [[v | e] |] eqn:Hrun; cbn [fst];
      intros E; [| | discriminate]; injection E as <-.
    + left. do 3 (split; [reflexivity |]).
      exists payload, v. repeat split. exact Hrun.
    + right. repeat split. apply failure_error_truthy.
  - cbn [fst]. intros E. injection E as <-.
    right. repeat split. apply failure_error_truthy.
Qed.

Lemma scan_response_shapes_witness :
  let r := {| status := 500;
              body := VObj [ ("ok", VBool false);
                             ("error", VStr "Internal Server Error");
                             ("details", VStr "Payload vazio") ] |} in
  (status r = 200
   /\ get (body r) "ok" = VBool true
   /\ get (body r) "error" = VUndef
   /\ exists payload v,
        prepare (fun _ => 7%N) (VArr []) = Ok payload
        /\ runPython payload [(5, Close (Some 0))] = Some (Resolved v)
        /\ get (body r) "data" = get v "parsed")
  \/ (status r = 500
      /\ get (body r) "ok" = VBool false
      /\ truthy (get (body r) "error") = true
      /\ get (body r) "data" = VUndef).
Proof.
  apply (scan_response_shapes (fun _ => 7%N) [(5, Close (Some 0))] (VArr [])).
  reflexivity.
Defined.

(** X13. When the worker closes before the deadline and the invocation is
    rejected, the response is 500 with the rejection's [error] as message;
    its details are the diagnostics text when the worker wrote any, and the
    whole rejection object when it wrote none. *)
Theorem scan_worker_failure_details :
  forall clock req_body payload pre t code post e,
    prepare clock req_body = Ok payload ->
    streaming pre ->
    t < TIMEOUT_MS ->
    runPython payload (pre ++ (t, Close code) :: post) = Some (Rejected e) ->
    scan clock (pre ++ (t, Close code) :: post) req_body
    = (Some {| status := 500;
               body := VObj [ ("ok", VBool false);
                              ("error", get e "error");
                              ("details",
                               if String.eqb (diagnostics_of pre "") "" then e
                               else VStr (diagnostics_of pre "")) ] |},
       [payload]).
Proof.
  intros clock req_body payload pre t code post e Hprep Hpre Ht Hrun.
  unfold scan. rewrite Hprep, Hrun.
  rewrite (runPython_close payload pre t code post Hpre Ht) in Hrun.
  destruct (extractJSON_returns (trim (output_of pre ""))) as [doc He].
  destruct (truthy doc) eqn:Hd.
  - rewrite (close_outcome_truthy payload pre code doc He Hd) in Hrun.
    destruct (_ && _) in Hrun; [discriminate |].
    injection Hrun as <-. rewrite logical_error_fields.
    unfold failure, object. cbn. unfold or_else. cbn.
    destruct (truthy (get doc "error")) eqn:Herr;
      destruct (String.eqb (diagnostics_of pre "") "") eqn:Hdiag;
      cbn; rewrite ?Herr; cbn; rewrite ?Hdiag; cbn; rewrite ?Herr; reflexivity.
  - rewrite (close_outcome_falsy payload pre code doc He Hd) in Hrun.
    injection Hrun as <-. rewrite invalid_output_fields.
    unfold failure, object. cbn. unfold or_else. cbn.
    destruct (String.eqb (diagnostics_of pre "") "") eqn:Hdiag;
      cbn; rewrite ?Hdiag; reflexivity.
Qed.

Lemma scan_worker_failure_details_witness :
  scan (fun _ => 7%N)
    ([ (5, StdoutData (json_text "{'ok':false,'error':'no tiles'}"));
       (6, StderrData "Traceback") ] ++ (9, Close (Some 1)) :: [])
    (VObj [("lat", VNum (Finite false 1 0)); ("lon", VNum (Finite false 2 0))])
  = (Some {| status := 500;
             body := VObj [ ("ok", VBool false);
                            ("error", VStr "no tiles");
                            ("details", VStr "Traceback") ] |},
     [ normalizePayload (fun _ => 7%N)
         (VObj [("lat", VNum (Finite false 1 0)); ("lon", VNum (Finite false 2 0))]) ]).
Proof.
  refine (scan_worker_failure_details (fun _ => 7%N) _ _
            [ (5, StdoutData (json_text "{'ok':false,'error':'no tiles'}"));
              (6, StderrData "Traceback") ] 9 (Some 1) []
            (VObj [ ("code", VNum (Finite false 1 0));
                    ("error", VStr "no tiles");
                    ("parsed", VObj [("ok", VBool false); ("error", VStr "no tiles")]);
                    ("stderr", VStr "Traceback") ]) _ _ _ _).
  - vm_compute. reflexivity.
  - repeat constructor.
  - reflexivity.
  - vm_compute. reflexivity.
Defined.

(** X14. When the batch is valid and the child neither closes nor fails
    until after the deadline, the response is 500 with the message
    "Python script timed out after 120s" and, as details, the TIMEOUT
    object itself. *)
Theorem scan_timeout_response :
  forall clock child req_body payload,
    prepare clock req_body = Ok payload ->
    overdue child ->
    scan clock child req_body
    = (Some {| status := 500;
               body := VObj [ ("ok", VBool false);
                              ("error", VStr "Python script timed out after 120s");
                              ("details",
                               VObj [ ("code", VStr "TIMEOUT");
                                      ("error",
                                       VStr "Python script timed out after 120s") ]) ] |},
       [payload]).
Proof.
  intros clock child req_body payload Hprep Hover.
  unfold scan. rewrite Hprep, (runPython_overdue payload child Hover).
  reflexivity.
Qed.

Lemma scan_timeout_response_witness :
  fst (scan (fun _ => 7%N) [(10, StdoutData "working"); (125000, Close None)]
         (VObj [("lat", VNum (Finite false 1 0)); ("lon", VNum (Finite false 2 0))]))
  = Some {| status := 500;
            body := VObj [ ("ok", VBool false);
                           ("error", VStr "Python script timed out after 120s");
                           ("details",
                            VObj [ ("code", VStr "TIMEOUT");
                                   ("error",
                                    VStr "Python script timed out after 120s") ]) ] |}.
Proof.
  rewrite (scan_timeout_response (fun _ => 7%N)
             [(10, StdoutData "working"); (125000, Close None)]
             (VObj [("lat", VNum (Finite false 1 0)); ("lon", VNum (Finite false 2 0))])
             (normalizePayload (fun _ => 7%N)
                (VObj [("lat", VNum (Finite false 1 0));
                       ("lon", VNum (Finite false 2 0))]))).
  - reflexivity.
  - vm_compute. reflexivity.
  - repeat constructor; simpl; discriminate.
Defined.

(** X15. When the batch is valid and the child cannot be created, the
    response is 500 with the message "Internal Server Error" and, as
    details, the message of the system error, provided the error object
    has a non-empty [message] and neither an [error] nor a [stderr]. *)
Theorem scan_spawn_failure_response :
  forall clock req_body payload t err post message,
    prepare clock req_body = Ok payload ->
    t < TIMEOUT_MS ->
    lookup "error" err = None ->
    lookup "stderr" err = None ->
    lookup "message" err = Some (VStr message) ->
    message <> "" ->
    scan clock ((t, ErrorEvent err) :: post) req_body
    = (Some {| status := 500;
               body := VObj [ ("ok", VBool false);
                              ("error", VStr "Internal Server Error");
                              ("details", VStr message) ] |},
       [payload]).
Proof.
  intros clock req_body payload t err post message Hprep Ht He Hs Hm Hne.
  unfold scan. rewrite Hprep.
  change ((t, ErrorEvent err) :: post) with ([] ++ (t, ErrorEvent err) :: post).
  rewrite (runPython_error payload [] t err post) by (try constructor; assumption).
  unfold failure, object, get. cbn [own_props]. rewrite He, Hs, Hm.
  cbn. unfold or_else. cbn.
  destruct (String.eqb_spec message ""); [contradiction | reflexivity].
Qed.

Lemma scan_spawn_failure_response_witness :
  fst (scan (fun _ => 7%N)
         [ (2, ErrorEvent [ ("errno", VNum (Finite true 2 0)); ("code", VStr "ENOENT");
                            ("message", VStr "spawn python ENOENT") ]);
           (3, Close (Some (-2))) ]
         (VObj [("lat", VNum (Finite false 1 0)); ("lon", VNum (Finite false 2 0))]))
  = Some {| status := 500;
            body := VObj [ ("ok", VBool false);
                           ("error", VStr "Internal Server Error");
                           ("details", VStr "spawn python ENOENT") ] |}.
Proof.
  rewrite (scan_spawn_failure_response (fun _ => 7%N)
             (VObj [("lat", VNum (Finite false 1 0)); ("lon", VNum (Finite false 2 0))])
             (normalizePayload (fun _ => 7%N)
                (VObj [("lat", VNum (Finite false 1 0));
                       ("lon", VNum (Finite false 2 0))]))
             2 _ [(3, Close (Some (-2)))] "spawn python ENOENT").
  - reflexivity.
  - vm_compute. reflexivity.
  - reflexivity.
  - reflexivity.
  - reflexivity.
  - reflexivity.
  - discriminate.
Defined.

(** X16. A body that is one item, not an array, is validated as the batch
    that holds only this item, and for the same behaviour of the child the
    response is the same; the child gets the item itself, not an array. *)
Theorem scan_single_item_as_batch :
  forall clock child x,
    (forall l, x <> VArr l) ->
    as_array (normalizePayload clock x)
    = as_array (normalizePayload clock (VArr [x]))
    /\ fst (scan clock child x) = fst (scan clock child (VArr [x]))
    /\ (snd (scan clock child x) = [] \/
        snd (scan clock child x) = [normalizeOne (clock O) x]).
Proof.
  intros clock child x Hx.
  assert (Hp : normalizePayload clock x = normalizeOne (clock O) x).
  { destruct x; try reflexivity. exfalso. apply (Hx items). reflexivity. }
  assert (Ha : as_array (normalizePayload clock x) = [normalizeOne (clock O) x]).
  { rewrite Hp. destruct x; try reflexivity.
    - destruct b; reflexivity.
    - unfold normalizeOne. destruct (truthy (VNum n)); reflexivity.
    - unfold normalizeOne. destruct (truthy (VStr s)); reflexivity. }
  split; [rewrite Ha; reflexivity |].
  unfold scan, prepare. cbv zeta. rewrite Ha.
  change (as_array (normalizePayload clock (VArr [x])))
    with [normalizeOne (clock O) x].
  cbn [List.length Z.of_nat Z.eqb Pos.of_succ_nat].
  destruct (check_items [normalizeOne (clock O) x]) as [[] | err]; cbn [bind].
  - rewrite Hp.
    rewrite (runPython_payload (normalizePayload clock (VArr [x]))
               (normalizeOne (clock O) x) child).
    destruct (runPython (normalizeOne (clock O) x) child) as [[r | e] |];
      split; try reflexivity; right; reflexivity.
  - split; [reflexivity | left; reflexivity].
Qed.

Lemma scan_single_item_as_batch_witness :
  fst (scan (fun _ => 7%N) [(5, StdoutData "x"); (9, Close (Some 0))]
         (VObj [("lat", VStr "north")]))
  = fst (scan (fun _ => 7%N) [(5, StdoutData "x"); (9, Close (Some 0))]
           (VArr [VObj [("lat", VStr "north")]])).
Proof.
  apply (scan_single_item_as_batch (fun _ => 7%N)
           [(5, StdoutData "x"); (9, Close (Some 0))]
           (VObj [("lat", VStr "north")])).
  intros l. discriminate.
Defined.

Section RootObject.

Import JSON.

Lemma root_is_object_cons f rest :
  root_is_object (f :: rest)
  = match rest with
    | [] => match f with InObject _ _ => true | InArray _ => false end
    | _ :: _ => root_is_object rest
    end.
Proof.
  unfold root_is_object. cbn [rev].
  destruct rest as [| g rest']; [destruct f; reflexivity |].
  destruct (rev (g :: rest')) as [| h t] eqn:E; [| reflexivity].
  exfalso. apply (f_equal (@List.length frame)) in E.
  rewrite length_rev in E. discriminate.
Qed.

Lemma root_is_object_nonempty stack : root_is_object stack = true -> stack <> [].
Proof. intros H ->. discriminate. Qed.

(** A value finished inside a root object leaves the automaton there. *)
Lemma deliver_in_root v stack :
  root_is_object stack = true ->
  in_root_object (fst (deliver v stack)) (snd (deliver v stack)).
Proof.
  intros H. destruct stack as [| [items | ps k] rest]; [discriminate | |];
    cbn [deliver fst snd in_root_object];
    rewrite root_is_object_cons in *; exact H.
Qed.

Lemma deliver_object ps stack :
  stack = [] \/ root_is_object stack = true ->
  in_root_object (fst (deliver (VObj ps) stack)) (snd (deliver (VObj ps) stack)).
Proof.
  intros [-> | H]; [simpl; eauto | apply deliver_in_root, H].
Qed.

Lemma delivered_in_root v stack e' stack' :
  root_is_object stack = true ->
  deliver v stack = (e', stack') ->
  in_root_object e' stack'.
Proof.
  intros H E. pose proof (deliver_in_root v stack H) as D.
  rewrite E in D. exact D.
Qed.

Lemma delivered_object ps stack e' stack' :
  stack = [] \/ root_is_object stack = true ->
  deliver (VObj ps) stack = (e', stack') ->
  in_root_object e' stack'.
Proof.
  intros H E. pose proof (deliver_object ps stack H) as D.
  rewrite E in D. exact D.
Qed.

Lemma open_value_in_root t stack e' stack' :
  root_is_object stack = true ->
  open_value t stack = Some (e', stack') ->
  in_root_object e' stack'.
Proof.
  intros H E. destruct t; cbn [open_value] in E; try discriminate;
    first [ injection E as <- <-; first [exact H | right; exact H]
          | injection E as E; eapply delivered_in_root; [| exact E];
            assumption ].
Qed.

Lemma parse_step_in_root e stack t e' stack' :
  in_root_object e stack ->
  parse_step e stack t = Some (e', stack') ->
  in_root_object e' stack'.
Proof.
  intros H E. destruct e; cbn [parse_step in_root_object] in *.
  - eapply open_value_in_root; eassumption.
  - assert (Hin : root_is_object (InArray [] :: stack) = true).
    { rewrite root_is_object_cons. destruct stack; [discriminate | exact H]. }
    destruct t; cbn [open_value] in E; try discriminate;
    first [ injection E as <- <-; cbn [in_root_object];
            first [exact Hin | right; exact Hin
                  | rewrite root_is_object_cons in *; exact Hin]
          | injection E as E; eapply delivered_in_root; [| exact E];
            assumption ].
  - destruct t; try discriminate.
    + injection E as E. eapply delivered_object; eassumption.
    + injection E as <- <-. exact H.
  - destruct t; try discriminate. injection E as <- <-. exact H.
  - destruct t; try discriminate. injection E as <- <-.
    cbn [in_root_object]. rewrite root_is_object_cons.
    destruct stack; [reflexivity |].
    destruct H as [H | H]; [discriminate | exact H].
  - destruct t; try discriminate;
      destruct stack as [| [items | ps0 k0] rest]; try discriminate;
      rewrite root_is_object_cons in H.
    + injection E as E. eapply delivered_object; [| eassumption].
      destruct rest; [left; reflexivity | right; exact H].
    + injection E as E. eapply delivered_in_root; [| eassumption].
      destruct rest; [discriminate | exact H].
    + injection E as <- <-. cbn [in_root_object].
      rewrite root_is_object_cons. exact H.
    + injection E as <- <-. cbn [in_root_object].
      destruct rest; [left; reflexivity | right; exact H].
  - discriminate.
Qed.

Lemma run_in_root ts : forall e stack v,
  in_root_object e stack -> run e stack ts = Some v -> exists ps, v = VObj ps.
Proof.
  induction ts as [| t r IH]; intros e stack v H E; cbn [run] in E.
  - destruct e; try discriminate. injection E as <-.
    destruct H as [_ H]. exact H.
  - destruct (parse_step e stack t) as [[e' stack'] |] eqn:S; [| discriminate].
    eapply IH; [| exact E]. eapply parse_step_in_root; eassumption.
Qed.

(** The tokens found so far stay, in their order. *)
Lemma lex_step_extends st out c st' out' :
  lex_step st out c = Some (st', out') -> exists d, out' = d ++ out.
Proof.
  assert (I : forall o s o', lex_idle c o = Some (s, o') -> exists d, o' = d ++ o).
  { intros o s o' E. unfold lex_idle in E.
    destruct (json_ws c); [injection E as <- <-; exists []; reflexivity |].
    destruct (code c =? 34)%N; [injection E as <- <-; exists []; reflexivity |].
    destruct (punctuation c) as [t |]; injection E as <- <-;
      [exists [t] | exists []]; reflexivity. }
  intros E. destruct st as [| cs | t m]; cbn [lex_step] in E.
  - eapply I, E.
  - destruct (is_delimiter c).
    + destruct (bare_token (rev cs)) as [tok |]; [| discriminate].
      destruct (I _ _ _ E) as [d ->]. exists (d ++ [tok]).
      rewrite <- app_assoc. reflexivity.
    + injection E as <- <-. exists []. reflexivity.
  - destruct m as [| | todo acc].
    + destruct (code c =? 34)%N; [injection E as <- <-; eexists [_]; reflexivity |].
      destruct (code c =? 92)%N; [injection E as <- <-; exists []; reflexivity |].
      destruct (code c <? 32)%N; [discriminate |].
      injection E as <- <-. exists []. reflexivity.
    + destruct (code c =? 117)%N; [injection E as <- <-; exists []; reflexivity |].
      destruct (simple_escape c); [| discriminate].
      injection E as <- <-. exists []. reflexivity.
    + destruct (JS.radix_digit 16 c); [| discriminate].
      destruct todo as [| [| todo']]; try discriminate;
        injection E as <- <-; exists []; reflexivity.
Qed.

Lemma lex_extends l : forall st out ts,
  lex st out l = Some ts -> exists rest, ts = rev out ++ rest.
Proof.
  induction l as [| c r IH]; intros st out ts E; cbn [lex] in E.
  - destruct st as [| cs | t m].
    + injection E as <-. exists []. symmetry. apply app_nil_r.
    + destruct (bare_token (rev cs)) as [tok |]; [| discriminate].
      injection E as <-. exists [tok]. reflexivity.
    + discriminate.
  - destruct (lex_step st out c) as [[st' out'] |] eqn:S; [| discriminate].
    destruct (lex_step_extends _ _ _ _ _ S) as [d ->].
    destruct (IH _ _ _ E) as [rest ->].
    exists (rev d ++ rest). rewrite rev_app_distr, <- app_assoc. reflexivity.
Qed.

(** A text that opens with a brace parses, if at all, to an object. *)
Lemma parse_brace s v :
  JSON.parse ("{" ++ s) = Some v -> exists ps, v = VObj ps.
Proof.
  unfold JSON.parse. intros E.
  change (JS.chars ("{" ++ s)) with ("{"%char :: JS.chars s) in E.
  cbn [lex] in E.
  change (lex_step Idle [] "{"%char) with (Some (Idle, [TLBrace])) in E.
  destruct (lex Idle [TLBrace] (JS.chars s)) as [ts |] eqn:L; [| discriminate].
  destruct (lex_extends _ _ _ _ L) as [rest ->].
  cbn [rev app run parse_step open_value] in E.
  apply (run_in_root rest AKeyOrClose [] v); [left; reflexivity | exact E].
Qed.

End RootObject.

(** X17. What [extractJSON] recovers from a text that is not valid JSON as a
    whole is an object or null: an array or a primitive is returned only when
    it is the whole text. *)
Theorem extractJSON_recovers_only_objects :
  forall text v,
    JSON.parse text = None ->
    extractJSON text = Ok v ->
    v = VNull \/ exists ps, v = VObj ps.
Proof.
  intros text v Hparse E.
  rewrite extractJSON_cases, Hparse in E. cbv zeta in E.
  destruct (_ && _) eqn:Hguard in E; [| injection E as <-; left; reflexivity].
  destruct (braces_exist text Hguard) as (pre & mid & post & -> & Hpre & Hpost).
  destruct (braces_found pre mid post Hpre Hpost) as [_ Hsub].
  cbv zeta in Hsub. rewrite Hsub in E.
  destruct (JSON.parse ("{" ++ mid ++ "}")) as [doc |] eqn:P;
    injection E as <-; [right | left; reflexivity].
  apply (parse_brace _ _ P).
Qed.

Lemma extractJSON_recovers_only_objects_witness :
  extractJSON (json_text "done [1,2] {'ok':true} bye")
  = Ok (VObj [("ok", VBool true)])
  /\ (VObj [("ok", VBool true)] = VNull
      \/ exists ps, VObj [("ok", VBool true)] = VObj ps).
Proof.
  assert (E : extractJSON (json_text "done [1,2] {'ok':true} bye")
              = Ok (VObj [("ok", VBool true)])) by (vm_compute; reflexivity).
  split; [exact E |].
  apply (extractJSON_recovers_only_objects
           (json_text "done [1,2] {'ok':true} bye")).
  - vm_compute. reflexivity.
  - exact E.
Defined.
